(** * patch-utils: JSON patch builders of [pkg/json.go]

    A shallow embedding of the patch-generation code of [pkg/json.go] and
    the properties of its four builders and of the JSON-pointer escaper. *)

From Stdlib Require Import Ascii String Decimal DecimalString.
From stdpp Require Import base gmap strings list fin_maps.

Local Open Scope string_scope.

(** ** Go strings

    A Go [string] is a sequence of bytes: [String.string], whose characters
    are the 8-bit [ascii]. *)

Module strings.

(** The scanning loop of [strings.Replace] for a non-empty pattern: the
    matches are taken leftmost first and do not overlap.  [skip] counts the
    bytes of the match under way that are still to be passed over. *)
Fixpoint replace_from (old new : string) (skip : nat) (s : string) : string :=
  match s with
  | EmptyString => EmptyString
  | String c s' =>
      match skip with
      | S k => replace_from old new k s'
      | O =>
          if String.prefix old s
          then new ++ replace_from old new (String.length old - 1) s'
          else String c (replace_from old new 0 s')
      end
  end.

(** [strings.ReplaceAll(s, old, new)].  Every call of the program passes a
    non-empty [old]; with an empty [old] Go inserts [new] around every
    UTF-8 sequence of [s], a case that is left out here ([s] is returned
    as it is) and that no statement below touches. *)
Definition ReplaceAll (s old new : string) : string :=
  match old with
  | EmptyString => s
  | String _ _ => replace_from old new 0 s
  end.

(** [strings.Join(elems, sep)]. *)
Definition Join (elems : list string) (sep : string) : string :=
  String.concat sep elems.

End strings.

(** ** The pointer escaper *)

Definition SanitizeKeyForJsonPatch (key : string) : string :=
  strings.ReplaceAll (strings.ReplaceAll key "~" "~0") "/" "~1".

Definition UnSanitizeKeyForJsonPatch (key : string) : string :=
  strings.ReplaceAll (strings.ReplaceAll key "~1" "/") "~0" "~".

(** *** Escaping, one character at a time

    The two passes of [SanitizeKeyForJsonPatch], written as maps over the
    characters; they are what [strings.ReplaceAll] computes for a pattern of
    one character. *)

Fixpoint esc_tilde (s : string) : string :=
  match s with
  | EmptyString => EmptyString
  | String c s' =>
      if Ascii.eqb c "~" then String "~" (String "0" (esc_tilde s'))
      else String c (esc_tilde s')
  end.

Fixpoint esc_slash (s : string) : string :=
  match s with
  | EmptyString => EmptyString
  | String c s' =>
      if Ascii.eqb c "/" then String "~" (String "1" (esc_slash s'))
      else String c (esc_slash s')
  end.

(** An escaped reference token: no [/], and every [~] starts [~0] or [~1]. *)
Fixpoint escaped_token (t : string) : bool :=
  match t with
  | EmptyString => true
  | String c r =>
      if Ascii.eqb c "/" then false
      else if Ascii.eqb c "~" then
        match r with
        | String d _ => (Ascii.eqb d "0" || Ascii.eqb d "1") && escaped_token r
        | EmptyString => false
        end
      else escaped_token r
  end.


(** ** [fmt.Sprintf], for the verbs of this file *)

Module fmt.

(** Go string literals hold the escaped double quote; the templates below
    are written with [lit], which reads an apostrophe as that byte (none of
    the templates of the source holds an apostrophe). *)
Definition dquote : ascii := "034"%char.

Fixpoint lit (s : string) : string :=
  match s with
  | EmptyString => EmptyString
  | String c s' => String (if Ascii.eqb c "'" then dquote else c) (lit s')
  end.

(** An operand of [Sprintf]: a [string] or an [int]. *)
Inductive arg :=
| Str (s : string)
| Int (n : nat).

Definition Itoa (n : nat) : string := NilZero.string_of_uint (Nat.to_uint n).

(** One operand under the verb [v] ([s] or [d]); an operand of the other
    type is printed the way [fmt] reports a bad verb. *)
Definition format_arg (v : ascii) (x : arg) : string :=
  match x with
  | Str s =>
      if Ascii.eqb v "s" then s
      else "%!" ++ String v ("(string=" ++ s ++ ")")
  | Int n =>
      if Ascii.eqb v "d" then Itoa n
      else "%!" ++ String v ("(int=" ++ Itoa n ++ ")")
  end.

(** [fmt.Sprintf(format, a...)] for formats whose verbs are [%s] and [%d],
    the only ones of the program.  Any other byte after [%] is copied, and
    operands left over are dropped ([fmt] would report them); neither
    happens with the formats and calls of [json.go]. *)
Fixpoint Sprintf (format : string) (a : list arg) : string :=
  match format with
  | EmptyString => EmptyString
  | String c rest =>
      if Ascii.eqb c "%" then
        match rest with
        | EmptyString => "%!(NOVERB)"
        | String v rest' =>
            if Ascii.eqb v "s" || Ascii.eqb v "d" then
              match a with
              | x :: a' => format_arg v x ++ Sprintf rest' a'
              | [] => "%!" ++ String v ("(MISSING)" ++ Sprintf rest' [])
              end
            else String c (Sprintf rest a)
        end
      else String c (Sprintf rest a)
  end.

End fmt.

(** ** The types of [json.go] *)

(** [JsonPatch] encapsulates a JSON patch string. *)
Record JsonPatch := mkJsonPatch { patch : string }.

Definition Get (p : JsonPatch) : string := patch p.

(** [NoPatchRequired]: the instructions have resulted in no patch. *)
Record NoPatchRequired := mkNoPatchRequired { message : string }.

Definition Error (e : NoPatchRequired) : string := message e.

(** A non-nil value of Go's [error] interface: a [*NoPatchRequired], or an
    error of another package ([encoding/json], the client).  The nil error
    is [None]. *)
Inductive error :=
| ErrNoPatchRequired (e : NoPatchRequired)
| ErrOther (msg : string).

(** [PatchFunc] is the function to execute to perform the patch; a nil
    [PatchFunc] is [None]. *)
Definition PatchFunc := unit → option error.

(** A [[]string]: nil, or a slice with its elements. *)
Definition Slice := option (list string).

Definition slice_len (s : Slice) : nat :=
  match s with None => 0 | Some l => length l end.

(** The elements a [range] over the slice yields, in order. *)
Definition slice_range (s : Slice) : list string :=
  match s with None => [] | Some l => l end.

(** [append(s, x)] *)
Definition append {A : Type} (s : list A) (x : A) : list A := (s ++ [x])%list.

(** A [map[string]string]: nil, or a map with its entries. *)
Definition GoMap := option (gmap string string).

Definition map_entries (m : GoMap) : gmap string string :=
  match m with None => ∅ | Some g => g end.

Definition map_len (m : GoMap) : nat := size (map_entries m).

(** [value, found := m[k]] *)
Definition map_index (m : GoMap) (k : string) : option string :=
  map_entries m !! k.

(** One run of [for k, v := range m]: every entry once, in an order Go
    leaves open. *)
Record Range (m : GoMap) := mkRange {
  order : list (string * string);
  order_perm : order ≡ₚ map_to_list (map_entries m)
}.
Arguments order {m} _.
Arguments order_perm {m} _.

(** [client.Object], through the one method the builders call. *)
Record Object := mkObject { GetFinalizers : Slice }.

(** [types.PatchType] and [client.RawPatch]. *)
Inductive PatchType :=
| JSONPatchType
| MergePatchType
| StrategicMergePatchType
| ApplyPatchType.

Record RawPatch := mkRawPatch { Type_ : PatchType; Data : string }.

(** [client.Client], through its [Patch] method; the [context.Context] the
    builders hand on to it untouched is part of the client here. *)
Record Client := mkClient { Patch : Object → RawPatch → option error }.

(** ** The builders

    Every builder returns the patch (or patches) for the caller to log, the
    [PatchFunc] to execute, and the error of the generation. *)

Definition finalizerAddListTemplate : string :=
  fmt.lit "{'op': 'add', 'path': '/metadata/finalizers', 'value': ['%s']}".

Definition finalizerAppendTemplate : string :=
  fmt.lit "{'op': 'add', 'path': '/metadata/finalizers/-', 'value': '%s'}".

Definition JsonPatchFinalizerIn (clt : Client) (obj : Object) (finalizer : string)
  : JsonPatch * option PatchFunc * option error :=
  let addFinalizerPatch :=
    match GetFinalizers obj with
    | None =>
        (* no finalizer found, add a list of the one finalizer *)
        mkJsonPatch (fmt.Sprintf finalizerAddListTemplate [fmt.Str finalizer])
    | Some _ =>
        (* other finalizers exist, add the finalizer to the existing list *)
        mkJsonPatch (fmt.Sprintf finalizerAppendTemplate [fmt.Str finalizer])
    end in
  (addFinalizerPatch,
   Some (λ _, Patch clt obj
                (mkRawPatch JSONPatchType ("[" ++ Get addFinalizerPatch ++ "]"))),
   None).

Definition finalizerRemoveAllPatch : string :=
  fmt.lit "{'op': 'remove', 'path': '/metadata/finalizers'}".

Definition finalizerRemoveIndexTemplate : string :=
  fmt.lit "{'op': 'remove', 'path': '/metadata/finalizers/%d'}".

(** The loop [for idx, fin := range obj.GetFinalizers()] of
    [JsonPatchFinalizerOut], from index [idx] on: it sets the patch at the
    first element equal to [finalizer] and breaks. *)
Fixpoint range_finalizers (finalizer : string) (idx : nat) (fins : list string)
    (removeFinalizerPatch : JsonPatch) : JsonPatch :=
  match fins with
  | [] => removeFinalizerPatch
  | fin :: fins' =>
      if String.eqb fin finalizer
      then mkJsonPatch (fmt.Sprintf finalizerRemoveIndexTemplate [fmt.Int idx])
      else range_finalizers finalizer (S idx) fins' removeFinalizerPatch
  end.

Definition JsonPatchFinalizerOut (clt : Client) (obj : Object) (finalizer : string)
  : JsonPatch * option PatchFunc * option error :=
  let removeFinalizerPatch := mkJsonPatch "" in
  if Nat.eqb (slice_len (GetFinalizers obj)) 1 then
    (* remove all finalizers if only one exists *)
    let removeFinalizerPatch := mkJsonPatch finalizerRemoveAllPatch in
    (removeFinalizerPatch,
     Some (λ _, Patch clt obj
                  (mkRawPatch JSONPatchType ("[" ++ Get removeFinalizerPatch ++ "]"))),
     None)
  else
    (* remove index-based specific finalizer if more than one exist *)
    let removeFinalizerPatch :=
      range_finalizers finalizer 0 (slice_range (GetFinalizers obj))
        removeFinalizerPatch in
    if Nat.eqb (String.length (Get removeFinalizerPatch)) 0 then
      (removeFinalizerPatch, None,
       Some (ErrNoPatchRequired (mkNoPatchRequired "finalizer index not found")))
    else
      (removeFinalizerPatch,
       Some (λ _, Patch clt obj
                    (mkRawPatch JSONPatchType ("[" ++ Get removeFinalizerPatch ++ "]"))),
       None).

Definition patchNewMapTemplate : string :=
  fmt.lit "{'op': 'add', 'path': '%s', 'value': {'%s': '%s'}}".

Definition patchExistingMapTemplate : string :=
  fmt.lit "{'op': '%s', 'path': '%s/%s', 'value': '%s'}".

(** The body of the loop over [newMap] when [origMap] is empty; the state is
    the flag [first] and the slice [patches]. *)
Definition add_all_step (path : string) (st : bool * list string)
    (kv : string * string) : bool * list string :=
  let '(first, patches) := st in
  let '(k, v) := kv in
  if first then
    (* the original map doesn't exist: the key is un-sanitized and part of
       the value *)
    (false,
     append patches
       (fmt.Sprintf patchNewMapTemplate
          [fmt.Str path; fmt.Str (UnSanitizeKeyForJsonPatch k); fmt.Str v]))
  else
    (first,
     append patches
       (fmt.Sprintf patchExistingMapTemplate
          [fmt.Str "add"; fmt.Str path; fmt.Str k; fmt.Str v])).

(** The body of the loop over [newMap] when [origMap] has members. *)
Definition add_replace_step (path : string) (origMap : GoMap)
    (patches : list string) (kv : string * string) : list string :=
  let '(k, v) := kv in
  match map_index origMap k with
  | Some value =>
      if negb (String.eqb v value) then
        (* existing member with the key and a different value - replace *)
        append patches
          (fmt.Sprintf patchExistingMapTemplate
             [fmt.Str "replace"; fmt.Str path; fmt.Str k; fmt.Str v])
      else patches
  | None =>
      (* existing member with the key not found - add *)
      append patches
        (fmt.Sprintf patchExistingMapTemplate
           [fmt.Str "add"; fmt.Str path; fmt.Str k; fmt.Str v])
  end.

(** The slice [patches] once the loops over [newMap] are done. *)
Definition map_patches (path : string) (origMap : GoMap)
    (kvs : list (string * string)) : list string :=
  if Nat.eqb (map_len origMap) 0 then
    (fold_left (add_all_step path) kvs (true, [])).2
  else
    fold_left (add_replace_step path origMap) kvs [].

Definition JsonPatchMap (clt : Client) (obj : Object) (path : string)
    (origMap newMap : GoMap) (rng : Range newMap)
  : list JsonPatch * option PatchFunc * option error :=
  let patches := map_patches path origMap (order rng) in
  let patchObjs := fold_left (λ objs p, append objs (mkJsonPatch p)) patches [] in
  if Nat.ltb (length patches) 1 then
    (patchObjs, None,
     Some (ErrNoPatchRequired (mkNoPatchRequired "nothing to patch in map")))
  else
    (patchObjs,
     Some (λ _, Patch clt obj
                  (mkRawPatch JSONPatchType ("[" ++ strings.Join patches "," ++ "]"))),
     None).

Definition specReplacePrefix : string :=
  fmt.lit "{'op': 'replace', 'path': '/spec', 'value': ".

(** [JsonPatchSpec]; [Marshal] is [json.Marshal] at the type [*T] of the
    payload, whose nil pointer is [None]. *)
Definition JsonPatchSpec {T : Type} (Marshal : option T → string * option error)
    (clt : Client) (obj : Object) (spec : option T)
  : JsonPatch * option PatchFunc * option error :=
  let '(marshaled, err) := Marshal spec in
  match err with
  | Some e => (mkJsonPatch "", None, Some e)
  | None =>
      let patch := mkJsonPatch (specReplacePrefix ++ marshaled ++ "}") in
      (patch,
       Some (λ _, Patch clt obj
                    (mkRawPatch JSONPatchType ("[" ++ Get patch ++ "]"))),
       None)
  end.

(** ** Patch operations

    The operations of RFC 6902 the builders produce, and their text the way
    [json.go] lays it out.  The statements below say which operations a
    builder emits; the builders themselves only handle text. *)

Inductive Op :=
| OpAdd (path value : string)
| OpReplace (path value : string)
| OpRemove (path : string).

Definition quoted (s : string) : string :=
  String fmt.dquote (s ++ String fmt.dquote "").

Definition member (name value : string) : string :=
  quoted name ++ ": " ++ value.

Definition render (o : Op) : string :=
  match o with
  | OpAdd p v =>
      "{" ++ member "op" (quoted "add") ++ ", " ++ member "path" (quoted p)
          ++ ", " ++ member "value" v ++ "}"
  | OpReplace p v =>
      "{" ++ member "op" (quoted "replace") ++ ", " ++ member "path" (quoted p)
          ++ ", " ++ member "value" v ++ "}"
  | OpRemove p =>
      "{" ++ member "op" (quoted "remove") ++ ", " ++ member "path" (quoted p)
          ++ "}"
  end.

Definition is_remove (o : Op) : bool :=
  match o with OpRemove _ => true | _ => false end.

(** A JSON object of one member and a JSON array of one string, as the
    builders write them (keys and values are copied, not escaped). *)
Definition object1 (k v : string) : string := "{" ++ member k (quoted v) ++ "}".

Definition array1 (v : string) : string := "[" ++ quoted v ++ "]".

(** The operations of the map builder, entry by entry. *)
Definition create_op (path : string) (kv : string * string) : Op :=
  OpAdd path (object1 (UnSanitizeKeyForJsonPatch kv.1) kv.2).

Definition add_op (path : string) (kv : string * string) : Op :=
  OpAdd (path ++ "/" ++ kv.1) (quoted kv.2).

Definition replace_op (path : string) (kv : string * string) : Op :=
  OpReplace (path ++ "/" ++ kv.1) (quoted kv.2).

Definition entry_ops (path : string) (origMap : GoMap) (kv : string * string)
  : list Op :=
  match map_index origMap kv.1 with
  | None => [add_op path kv]
  | Some value => if decide (kv.2 = value) then [] else [replace_op path kv]
  end.

(** The three results of a builder. *)
Definition patch_of {A : Type} (r : A * option PatchFunc * option error) : A :=
  r.1.1.

Definition err_of {A : Type} (r : A * option PatchFunc * option error)
  : option error := r.2.

(** The call a [PatchFunc] of the builders makes: one JSON patch holding
    the array of the operations. *)
Definition apply_patch (clt : Client) (obj : Object) (body : string) : PatchFunc :=
  λ _, Patch clt obj (mkRawPatch JSONPatchType ("[" ++ body ++ "]")).

Definition op_path (o : Op) : string :=
  match o with OpAdd p _ | OpReplace p _ | OpRemove p => p end.

(** The operations that address the member [k] of the map at [path]. *)
Definition at_key (path k : string) (o : Op) : Prop :=
  op_path o = path ++ "/" ++ k.

Global Instance at_key_dec path k o : Decision (at_key path k o) :=
  decide (op_path o = path ++ "/" ++ k).

(** ** The objects and maps of [json_test.go] *)

Definition test_clt : Client := mkClient (λ _ _, None).

Definition blank_obj : Object := mkObject None.

Definition one_annotation : GoMap :=
  Some {[ "annotation_key1" := "annotation_value1" ]}.

Definition labels_orig : GoMap :=
  Some (<["ignore_me_key" := "ignore_me_value"]>
          {[ "dont_ignore_me" := "replace" ]}).

Definition labels_new : GoMap :=
  Some (<["dont_ignore_me" := "i_got_you"]> {[ "add_me" := "added" ]}).

(** The order in which the map itself lists its entries is one of the
    orders a [range] may take. *)
Definition listed (m : GoMap) : Range m :=
  mkRange m (map_to_list (map_entries m)) (Permutation_refl _).

(** Two sanitized keys, and the two orders a [range] over them may take. *)
Definition sanitized_labels : GoMap :=
  Some (<["a~1b" := "1"]> {[ "c~1d" := "2" ]}).

Definition a_then_c : Range sanitized_labels :=
  mkRange sanitized_labels [("a~1b", "1"); ("c~1d", "2")] (perm_swap _ _ _).

Definition c_then_a : Range sanitized_labels :=
  mkRange sanitized_labels [("c~1d", "2"); ("a~1b", "1")] (Permutation_refl _).

(** The maps of the scenario with an unchanged, an untouched and a new key. *)
Definition k1_k2 : GoMap := Some (<["k1" := "v1"]> {[ "k2" := "v2" ]}).

Definition k1_k3 : GoMap := Some (<["k1" := "v1"]> {[ "k3" := "v3" ]}).

(** [json.Marshal] and [json.Unmarshal] at the type [*bool]. *)
Definition marshal_bool (x : option bool) : string * option error :=
  (match x with
   | None => "null"
   | Some true => "true"
   | Some false => "false"
   end, None).

Definition unmarshal_bool (s : string) : option (option bool) :=
  if String.eqb s "null" then Some None
  else if String.eqb s "true" then Some (Some true)
  else if String.eqb s "false" then Some (Some false)
  else None.

(** [json.Marshal] at a pointer to a type it does not support, such as a
    channel: the nil pointer is [null], any other value is refused. *)
Definition marshal_unsupported (x : option unit) : string * option error :=
  match x with
  | None => ("null", None)
  | Some _ => ("", Some (ErrOther "json: unsupported type: chan int"))
  end.

(** [json.Marshal] at the type [**bool]: the nil pointer and the pointer to a
    nil pointer are both [null]. *)
Definition marshal_bool_ptr (x : option (option bool)) : string * option error :=
  (match x with
   | None | Some None => "null"
   | Some (Some true) => "true"
   | Some (Some false) => "false"
   end, None).

(** ** The panicking variants of the builders

    A call of a [...P] or [...Q] function returns, or panics with the error
    of the generation. *)

Inductive outcome (A : Type) :=
| Returns (a : A)
| Panics (e : error).
Arguments Returns {A} _.
Arguments Panics {A} _.

Definition JsonPatchFinalizerInP (clt : Client) (obj : Object) (finalizer : string)
  : outcome (JsonPatch * option PatchFunc) :=
  let '(p, f, e) := JsonPatchFinalizerIn clt obj finalizer in
  match e with
  | Some e => Panics e
  | None => Returns (p, f)
  end.

Definition JsonPatchFinalizerInQ (clt : Client) (obj : Object) (finalizer : string)
  : outcome (option PatchFunc) :=
  match JsonPatchFinalizerInP clt obj finalizer with
  | Panics e => Panics e
  | Returns (_, f) => Returns f
  end.

Definition JsonPatchFinalizerOutP (clt : Client) (obj : Object) (finalizer : string)
  : outcome (JsonPatch * option PatchFunc) :=
  let '(p, f, e) := JsonPatchFinalizerOut clt obj finalizer in
  match e with
  | Some e => Panics e
  | None => Returns (p, f)
  end.

Definition JsonPatchFinalizerOutQ (clt : Client) (obj : Object) (finalizer : string)
  : outcome (option PatchFunc) :=
  match JsonPatchFinalizerOutP clt obj finalizer with
  | Panics e => Panics e
  | Returns (_, f) => Returns f
  end.

Definition JsonPatchMapP (clt : Client) (obj : Object) (path : string)
    (origMap newMap : GoMap) (rng : Range newMap)
  : outcome (list JsonPatch * option PatchFunc) :=
  let '(p, f, e) := JsonPatchMap clt obj path origMap newMap rng in
  match e with
  | Some e => Panics e
  | None => Returns (p, f)
  end.

Definition JsonPatchMapQ (clt : Client) (obj : Object) (path : string)
    (origMap newMap : GoMap) (rng : Range newMap)
  : outcome (option PatchFunc) :=
  match JsonPatchMapP clt obj path origMap newMap rng with
  | Panics e => Panics e
  | Returns (_, f) => Returns f
  end.

Definition JsonPatchSpecP {T : Type} (Marshal : option T → string * option error)
    (clt : Client) (obj : Object) (spec : option T)
  : outcome (JsonPatch * option PatchFunc) :=
  let '(p, f, e) := JsonPatchSpec Marshal clt obj spec in
  match e with
  | Some e => Panics e
  | None => Returns (p, f)
  end.

Definition JsonPatchSpecQ {T : Type} (Marshal : option T → string * option error)
    (clt : Client) (obj : Object) (spec : option T)
  : outcome (option PatchFunc) :=
  match JsonPatchSpecP Marshal clt obj spec with
  | Panics e => Panics e
  | Returns (_, f) => Returns f
  end.

(** The [PatchFunc] among the three results of a builder. *)
Definition func_of {A : Type} (r : A * option PatchFunc * option error)
  : option PatchFunc := r.1.2.

(** A result with a nil error and a [PatchFunc], or with an error and a nil
    [PatchFunc]. *)
Definition shaped {A : Type} (r : A * option PatchFunc * option error) : Prop :=
  (∃ f, func_of r = Some f ∧ err_of r = None)
  ∨ (∃ e, func_of r = None ∧ err_of r = Some e).

(** How the [...P] result [P] and the [...Q] result [Q] of a call stand to the
    result [r] of the builder itself. *)
Definition variants_agree {A : Type} (r : A * option PatchFunc * option error)
    (P : outcome (A * option PatchFunc)) (Q : outcome (option PatchFunc)) : Prop :=
  (∀ e, P = Panics e ↔ err_of r = Some e)
  ∧ (∀ e, Q = Panics e ↔ err_of r = Some e)
  ∧ (∀ p f, P = Returns (p, f) ↔ r = (p, f, None))
  ∧ (∀ f, Q = Returns f ↔ func_of r = f ∧ err_of r = None)
  ∧ (∀ f, Q = Returns f → is_Some f).

(** The number of the characters [~] and [/] of a string, the ones the
    escaper rewrites. *)
Fixpoint specials (s : string) : nat :=
  match s with
  | EmptyString => 0
  | String c s' =>
      (if Ascii.eqb c "~" || Ascii.eqb c "/" then 1 else 0) + specials s'
  end.

(** Whether the character [c] occurs in a string. *)
Fixpoint occurs (c : ascii) (s : string) : bool :=
  match s with
  | EmptyString => false
  | String d s' => Ascii.eqb d c || occurs c s'
  end.

(** A desired entry the original map does not hold with the same value. *)
Definition entry_differs (origMap : GoMap) (kv : string * string) : Prop :=
  map_index origMap kv.1 ≠ Some kv.2.

Global Instance entry_differs_dec origMap kv : Decision (entry_differs origMap kv) :=
  decide (map_index origMap kv.1 ≠ Some kv.2).

(** A label of the usage the README shows, its key sanitized by the caller. *)
Definition readme_labels : GoMap :=
  Some {[ SanitizeKeyForJsonPatch "your.label/first.key" := "label-value" ]}.

(** A client whose [Patch] fails with the data it was sent. *)
Definition echo_clt : Client :=
  mkClient (λ _ p, Some (ErrOther (Data p))).

(** * Properties *)

Example sanitize_test :
  SanitizeKeyForJsonPatch "my~map/key" = "my~0map~1key".
Proof. reflexivity. Qed.

Example unsanitize_test :
  UnSanitizeKeyForJsonPatch "my~0map~1key" = "my~map/key".
Proof. reflexivity. Qed.

Example replace_no_overlap : strings.ReplaceAll "aaa" "aa" "b" = "ba".
Proof. reflexivity. Qed.

(** The entry the [range] yields first is the one whose key is un-sanitized
    into the new object; the others keep their keys. *)
Example create_a_then_c :
  patch_of (JsonPatchMap test_clt blank_obj "/metadata/labels"
              None sanitized_labels a_then_c)
  = [mkJsonPatch (render (OpAdd "/metadata/labels" (object1 "a/b" "1")));
     mkJsonPatch (render (OpAdd "/metadata/labels/c~1d" (quoted "2")))].
Proof. vm_compute. reflexivity. Qed.

Example create_c_then_a :
  patch_of (JsonPatchMap test_clt blank_obj "/metadata/labels"
              None sanitized_labels c_then_a)
  = [mkJsonPatch (render (OpAdd "/metadata/labels" (object1 "c/d" "2")));
     mkJsonPatch (render (OpAdd "/metadata/labels/a~1b" (quoted "1")))].
Proof. vm_compute. reflexivity. Qed.

Example add_k3_only :
  patch_of (JsonPatchMap test_clt blank_obj "/metadata/labels"
              k1_k2 k1_k3 (listed k1_k3))
  = [mkJsonPatch (render (OpAdd "/metadata/labels/k3" (quoted "v3")))].
Proof. vm_compute. reflexivity. Qed.

Example remove_first_of_two :
  patch_of (JsonPatchFinalizerOut test_clt (mkObject (Some ["x"; "y"])) "x")
  = mkJsonPatch (render (OpRemove "/metadata/finalizers/0")).
Proof. vm_compute. reflexivity. Qed.


Section Escaper.

Ltac ascii_cases c x :=
  let E := fresh "E" in
  destruct (Ascii.eqb_spec c x) as [E|E]; [subst c|].

Lemma prefix_cons_ne (a b : ascii) (p s : string) :
  a ≠ b → String.prefix (String a p) (String b s) = false.
Proof. intros Hne. simpl. destruct (ascii_dec a b); [contradiction|reflexivity]. Qed.

Lemma prefix_cons_eq (a : ascii) (p s : string) :
  String.prefix (String a p) (String a s) = String.prefix p s.
Proof. simpl. destruct (ascii_dec a a); [reflexivity|contradiction]. Qed.

Lemma prefix_nil (s : string) : String.prefix "" s = true.
Proof. by destruct s. Qed.

Ltac prefix_hit := repeat rewrite prefix_cons_eq; apply prefix_nil.
Ltac prefix_miss :=
  repeat rewrite prefix_cons_eq; apply prefix_cons_ne; congruence.

Lemma replace_from_miss old new (c : ascii) (s : string) :
  String.prefix old (String c s) = false →
  strings.replace_from old new 0 (String c s)
  = String c (strings.replace_from old new 0 s).
Proof. intros H. cbn [strings.replace_from]. by rewrite H. Qed.

Lemma replace_from_hit old new (c : ascii) (s : string) :
  String.prefix old (String c s) = true →
  strings.replace_from old new 0 (String c s)
  = new ++ strings.replace_from old new (String.length old - 1) s.
Proof. intros H. cbn [strings.replace_from]. by rewrite H. Qed.

Lemma ReplaceAll_tilde (s : string) :
  strings.ReplaceAll s "~" "~0" = esc_tilde s.
Proof.
  unfold strings.ReplaceAll.
  induction s as [|c s IH]; [reflexivity|].
  cbn [esc_tilde]. ascii_cases c "~"%char.
  - rewrite replace_from_hit by prefix_hit. cbn. by rewrite IH.
  - rewrite replace_from_miss by prefix_miss.
    by rewrite IH.
Qed.

Lemma ReplaceAll_slash (s : string) :
  strings.ReplaceAll s "/" "~1" = esc_slash s.
Proof.
  unfold strings.ReplaceAll.
  induction s as [|c s IH]; [reflexivity|].
  cbn [esc_slash]. ascii_cases c "/"%char.
  - rewrite replace_from_hit by prefix_hit. cbn. by rewrite IH.
  - rewrite replace_from_miss by prefix_miss.
    by rewrite IH.
Qed.

Lemma Sanitize_esc (s : string) :
  SanitizeKeyForJsonPatch s = esc_slash (esc_tilde s).
Proof.
  unfold SanitizeKeyForJsonPatch.
  by rewrite ReplaceAll_tilde, ReplaceAll_slash.
Qed.

(** The first pass of the un-escaper undoes the second pass of the escaper. *)
Lemma unescape_slash (s : string) :
  strings.ReplaceAll (esc_slash (esc_tilde s)) "~1" "/" = esc_tilde s.
Proof.
  unfold strings.ReplaceAll.
  induction s as [|c s IH]; [reflexivity|].
  cbn [esc_tilde]. ascii_cases c "~"%char.
  - cbn [esc_slash Ascii.eqb Bool.eqb].
    rewrite replace_from_miss by prefix_miss.
    rewrite replace_from_miss by prefix_miss.
    by rewrite IH.
  - cbn [esc_slash]. ascii_cases c "/"%char.
    + rewrite replace_from_hit by prefix_hit. cbn. by rewrite IH.
    + rewrite replace_from_miss by prefix_miss.
      by rewrite IH.
Qed.

(** The second pass of the un-escaper undoes the first pass of the escaper. *)
Lemma unescape_tilde (s : string) :
  strings.ReplaceAll (esc_tilde s) "~0" "~" = s.
Proof.
  unfold strings.ReplaceAll.
  induction s as [|c s IH]; [reflexivity|].
  cbn [esc_tilde]. ascii_cases c "~"%char.
  - rewrite replace_from_hit by prefix_hit. cbn. by rewrite IH.
  - rewrite replace_from_miss by prefix_miss.
    by rewrite IH.
Qed.

Lemma UnSanitize_Sanitize (s : string) :
  UnSanitizeKeyForJsonPatch (SanitizeKeyForJsonPatch s) = s.
Proof.
  rewrite Sanitize_esc. unfold UnSanitizeKeyForJsonPatch.
  by rewrite unescape_slash, unescape_tilde.
Qed.

(** The escaped tokens are exactly the strings the escaper produces. *)
Lemma escaped_token_Sanitize (s : string) :
  escaped_token (SanitizeKeyForJsonPatch s) = true.
Proof.
  rewrite Sanitize_esc.
  induction s as [|c s IH]; [reflexivity|].
  cbn [esc_tilde]. ascii_cases c "~"%char.
  - cbn [esc_slash Ascii.eqb Bool.eqb]. cbn. exact IH.
  - cbn [esc_slash]. ascii_cases c "/"%char.
    + cbn. exact IH.
    + cbn [escaped_token].
      rewrite (proj2 (Ascii.eqb_neq c "/")), (proj2 (Ascii.eqb_neq c "~")) by done.
      exact IH.
Qed.

Lemma escaped_token_preimage_bounded (n : nat) :
  ∀ t : string, (String.length t ≤ n)%nat → escaped_token t = true →
    ∃ s, t = SanitizeKeyForJsonPatch s.
Proof.
  induction n as [|n IH]; intros t Hlen Hesc.
  - destruct t; [by exists ""|simpl in Hlen; lia].
  - destruct t as [|c r]; [by exists ""|].
    simpl in Hlen. cbn [escaped_token] in Hesc.
    ascii_cases c "/"%char; [discriminate|].
    ascii_cases c "~"%char.
    + destruct r as [|d r']; [discriminate|].
      apply andb_prop in Hesc as [Hd Hr]. simpl in Hlen.
      assert (Hr' : escaped_token r' = true).
      { apply orb_prop in Hd as [Hd|Hd];
          apply Ascii.eqb_eq in Hd; subst d; exact Hr. }
      destruct (IH r' ltac:(lia) Hr') as [s ->].
      apply orb_prop in Hd as [Hd|Hd]; apply Ascii.eqb_eq in Hd; subst d.
      * exists (String "~" s). by rewrite !Sanitize_esc.
      * exists (String "/" s). by rewrite !Sanitize_esc.
    + destruct (IH r ltac:(lia) Hesc) as [s ->].
      exists (String c s). rewrite !Sanitize_esc. cbn [esc_tilde].
      rewrite (proj2 (Ascii.eqb_neq c "~")) by done. cbn [esc_slash].
      by rewrite (proj2 (Ascii.eqb_neq c "/")) by done.
Qed.

Lemma escaped_token_image (t : string) :
  escaped_token t = true ↔ ∃ s, t = SanitizeKeyForJsonPatch s.
Proof.
  split.
  - apply (escaped_token_preimage_bounded (String.length t)). lia.
  - intros [s ->]. apply escaped_token_Sanitize.
Qed.

Lemma Sanitize_UnSanitize_iff (t : string) :
  SanitizeKeyForJsonPatch (UnSanitizeKeyForJsonPatch t) = t
  ↔ escaped_token t = true.
Proof.
  rewrite escaped_token_image. split.
  - intros H. by exists (UnSanitizeKeyForJsonPatch t).
  - intros [s ->]. by rewrite UnSanitize_Sanitize.
Qed.

End Escaper.

(** ** The text of the operations *)

Section Rendering.

Lemma string_app_cons (x : ascii) (a b : string) :
  String x a ++ b = String x (a ++ b).
Proof. reflexivity. Qed.

Lemma string_app_nil_l (b : string) : "" ++ b = b.
Proof. reflexivity. Qed.

Lemma string_app_assoc (a b c : string) : (a ++ b) ++ c = a ++ (b ++ c).
Proof.
  induction a as [|x a IH]; [reflexivity|].
  by rewrite !string_app_cons, IH.
Qed.

Ltac string_norm :=
  repeat (rewrite string_app_cons || rewrite string_app_nil_l
          || rewrite string_app_assoc).

Ltac render_eq :=
  cbv [render member quoted object1 array1];
  cbn; string_norm; reflexivity.

Lemma Sprintf_patchNewMapTemplate (path k v : string) :
  fmt.Sprintf patchNewMapTemplate [fmt.Str path; fmt.Str k; fmt.Str v]
  = render (OpAdd path (object1 k v)).
Proof. render_eq. Qed.

Lemma Sprintf_patchExistingMapTemplate_add (path k v : string) :
  fmt.Sprintf patchExistingMapTemplate
    [fmt.Str "add"; fmt.Str path; fmt.Str k; fmt.Str v]
  = render (OpAdd (path ++ "/" ++ k) (quoted v)).
Proof. render_eq. Qed.

Lemma Sprintf_patchExistingMapTemplate_replace (path k v : string) :
  fmt.Sprintf patchExistingMapTemplate
    [fmt.Str "replace"; fmt.Str path; fmt.Str k; fmt.Str v]
  = render (OpReplace (path ++ "/" ++ k) (quoted v)).
Proof. render_eq. Qed.

Lemma Sprintf_finalizerAddListTemplate (finalizer : string) :
  fmt.Sprintf finalizerAddListTemplate [fmt.Str finalizer]
  = render (OpAdd "/metadata/finalizers" (array1 finalizer)).
Proof. render_eq. Qed.

Lemma Sprintf_finalizerAppendTemplate (finalizer : string) :
  fmt.Sprintf finalizerAppendTemplate [fmt.Str finalizer]
  = render (OpAdd "/metadata/finalizers/-" (quoted finalizer)).
Proof. render_eq. Qed.

Lemma finalizerRemoveAllPatch_render :
  finalizerRemoveAllPatch = render (OpRemove "/metadata/finalizers").
Proof. reflexivity. Qed.

Lemma Sprintf_finalizerRemoveIndexTemplate (idx : nat) :
  fmt.Sprintf finalizerRemoveIndexTemplate [fmt.Int idx]
  = render (OpRemove ("/metadata/finalizers/" ++ fmt.Itoa idx)).
Proof.
  cbv [render member quoted].
  cbn -[fmt.Itoa]. string_norm. reflexivity.
Qed.

Lemma specReplace_render (marshaled : string) :
  specReplacePrefix ++ marshaled ++ "}"
  = render (OpReplace "/spec" marshaled).
Proof. render_eq. Qed.

(** No operation has an empty text. *)
Lemma render_nonempty (o : Op) : render o ≠ "".
Proof. by destruct o. Qed.

End Rendering.

(** ** The loops of the map builder *)

Section MapLoops.

Variable path : string.

Lemma fold_left_append {A B : Type} (f : B → A) (l : list B) (acc : list A) :
  fold_left (λ objs p, append objs (f p)) l acc = (acc ++ map f l)%list.
Proof.
  revert acc. induction l as [|x l IH]; intros acc; cbn.
  - by rewrite app_nil_r.
  - rewrite IH. unfold append. by rewrite <- app_assoc.
Qed.

Lemma add_all_rest (kvs : list (string * string)) (acc : list string) :
  fold_left (add_all_step path) kvs (false, acc)
  = (false, (acc ++ map (λ kv, render (add_op path kv)) kvs)%list).
Proof.
  revert acc.
  induction kvs as [|[k v] kvs IH]; intros acc; cbn [fold_left add_all_step map].
  - by rewrite app_nil_r.
  - rewrite IH. unfold append, add_op. cbn [fst snd].
    by rewrite <- app_assoc, Sprintf_patchExistingMapTemplate_add.
Qed.

Lemma add_all_first (kv : string * string) (rest : list (string * string)) :
  (fold_left (add_all_step path) (kv :: rest) (true, [])).2
  = map render (create_op path kv :: map (add_op path) rest).
Proof.
  destruct kv as [k v]. cbn [fold_left add_all_step].
  rewrite add_all_rest. unfold append, create_op. cbn [fst snd app map].
  by rewrite Sprintf_patchNewMapTemplate, map_map.
Qed.

Lemma add_replace_step_ops (origMap : GoMap) (acc : list string)
    (kv : string * string) :
  add_replace_step path origMap acc kv
  = (acc ++ map render (entry_ops path origMap kv))%list.
Proof.
  destruct kv as [k v]. unfold add_replace_step, entry_ops. cbn [fst snd].
  destruct (map_index origMap k) as [value|].
  - destruct (String.eqb_spec v value) as [->|Hne]; cbn [negb].
    + rewrite decide_True by done. cbn. by rewrite app_nil_r.
    + rewrite decide_False by done. unfold append, replace_op. cbn [map fst snd].
      by rewrite Sprintf_patchExistingMapTemplate_replace.
  - unfold append, add_op. cbn [map fst snd].
    by rewrite Sprintf_patchExistingMapTemplate_add.
Qed.

Lemma add_replace_fold (origMap : GoMap) (kvs : list (string * string))
    (acc : list string) :
  fold_left (add_replace_step path origMap) kvs acc
  = (acc ++ map render (flat_map (entry_ops path origMap) kvs))%list.
Proof.
  revert acc. induction kvs as [|kv kvs IH]; intros acc; cbn [fold_left flat_map].
  - cbn. by rewrite app_nil_r.
  - by rewrite IH, add_replace_step_ops, map_app, app_assoc.
Qed.

Lemma map_patches_empty (origMap : GoMap) (kv : string * string)
    (rest : list (string * string)) :
  map_len origMap = 0 →
  map_patches path origMap (kv :: rest)
  = map render (create_op path kv :: map (add_op path) rest).
Proof.
  intros Hlen. unfold map_patches. rewrite Hlen. cbn [Nat.eqb].
  apply add_all_first.
Qed.

Lemma map_patches_nonempty (origMap : GoMap) (kvs : list (string * string)) :
  map_len origMap ≠ 0 →
  map_patches path origMap kvs
  = map render (flat_map (entry_ops path origMap) kvs).
Proof.
  intros Hlen. unfold map_patches.
  rewrite (proj2 (Nat.eqb_neq _ _) Hlen). by rewrite add_replace_fold.
Qed.

End MapLoops.

(** ** What one [range] over a map yields *)

Section Ranges.

Context {m : GoMap} (rng : Range m).

Lemma range_elem_of (k v : string) :
  (k, v) ∈ order rng ↔ map_index m k = Some v.
Proof. rewrite (order_perm rng). apply elem_of_map_to_list. Qed.

Lemma range_NoDup : NoDup (order rng).*1.
Proof. rewrite (order_perm rng). apply NoDup_fst_map_to_list. Qed.

Lemma range_length : length (order rng) = map_len m.
Proof. rewrite (order_perm rng). apply length_map_to_list. Qed.

End Ranges.

(** ** The results of the map builder *)

Section MapBuilder.

Variables (clt : Client) (obj : Object) (path : string).

Lemma JsonPatchMap_nothing (origMap newMap : GoMap) (rng : Range newMap) :
  map_patches path origMap (order rng) = [] →
  JsonPatchMap clt obj path origMap newMap rng
  = ([], None,
     Some (ErrNoPatchRequired (mkNoPatchRequired "nothing to patch in map"))).
Proof. intros H. unfold JsonPatchMap. by rewrite H. Qed.

Lemma JsonPatchMap_patches (origMap newMap : GoMap) (rng : Range newMap)
    (p : string) (ps : list string) :
  map_patches path origMap (order rng) = p :: ps →
  JsonPatchMap clt obj path origMap newMap rng
  = (map mkJsonPatch (p :: ps),
     Some (apply_patch clt obj (strings.Join (p :: ps) ",")),
     None).
Proof.
  intros H. unfold JsonPatchMap. rewrite H.
  by rewrite fold_left_append.
Qed.

End MapBuilder.

(** ** The operations of one key *)

Section PerKey.

Variables (path : string) (origMap : GoMap).

Lemma filter_all {A : Type} (P : A → Prop) `{!∀ x, Decision (P x)} (l : list A) :
  (∀ x, x ∈ l → P x) → filter P l = l.
Proof.
  induction l as [|x l IH]; intros Hall; [reflexivity|].
  rewrite filter_cons_True by (apply Hall; left).
  rewrite IH; [reflexivity|]. intros y Hy. apply Hall. by right.
Qed.

Lemma filter_none {A : Type} (P : A → Prop) `{!∀ x, Decision (P x)} (l : list A) :
  (∀ x, x ∈ l → ¬ P x) → filter P l = [].
Proof.
  induction l as [|x l IH]; intros Hall; [reflexivity|].
  rewrite filter_cons_False by (apply Hall; left).
  apply IH. intros y Hy. apply Hall. by right.
Qed.

Lemma key_path_inj (k k' : string) :
  path ++ "/" ++ k = path ++ "/" ++ k' → k = k'.
Proof. intros H. by do 2 apply String.app_inj in H. Qed.

Lemma entry_ops_at_key (kv : string * string) (o : Op) :
  o ∈ entry_ops path origMap kv → at_key path kv.1 o.
Proof.
  unfold entry_ops.
  destruct (map_index origMap kv.1) as [value|]; [case_decide|];
    intros Ho; [by apply elem_of_nil in Ho|..];
    apply list_elem_of_singleton in Ho as ->; reflexivity.
Qed.

Lemma entry_ops_not_remove (kv : string * string) (o : Op) :
  o ∈ entry_ops path origMap kv → is_remove o = false.
Proof.
  unfold entry_ops.
  destruct (map_index origMap kv.1) as [value|]; [case_decide|];
    intros Ho; [by apply elem_of_nil in Ho|..];
    apply list_elem_of_singleton in Ho as ->; reflexivity.
Qed.

Lemma filter_entry_ops_same (kv : string * string) :
  filter (at_key path kv.1) (entry_ops path origMap kv) = entry_ops path origMap kv.
Proof.
  apply filter_all. intros o Ho. by apply entry_ops_at_key.
Qed.

Lemma filter_entry_ops_other (k : string) (kv : string * string) :
  kv.1 ≠ k → filter (at_key path k) (entry_ops path origMap kv) = [].
Proof.
  intros Hne. apply filter_none. intros o Ho Hk.
  apply entry_ops_at_key in Ho. unfold at_key in *.
  rewrite Ho in Hk. by apply key_path_inj in Hk.
Qed.

Lemma filter_ops_absent (k : string) (kvs : list (string * string)) :
  k ∉ kvs.*1 →
  filter (at_key path k) (flat_map (entry_ops path origMap) kvs) = [].
Proof.
  induction kvs as [|kv kvs IH]; intros Hk; [reflexivity|].
  cbn [flat_map]. rewrite filter_app.
  apply not_elem_of_cons in Hk as [Hne Hk].
  rewrite filter_entry_ops_other by done. by rewrite IH.
Qed.

Lemma filter_ops_present (k v : string) (kvs : list (string * string)) :
  NoDup kvs.*1 → (k, v) ∈ kvs →
  filter (at_key path k) (flat_map (entry_ops path origMap) kvs)
  = entry_ops path origMap (k, v).
Proof.
  induction kvs as [|kv kvs IH]; intros Hnd Hin.
  - by apply elem_of_nil in Hin.
  - cbn [flat_map]. rewrite filter_app.
    apply NoDup_cons in Hnd as [Hfresh Hnd].
    apply elem_of_cons in Hin as [<-|Hin].
    + pose proof (filter_entry_ops_same (k, v)) as Hsame.
      cbn [fst] in Hsame. rewrite Hsame.
      rewrite filter_ops_absent by done. by rewrite app_nil_r.
    + assert (kv.1 ≠ k) as Hne.
      { intros <-. apply Hfresh. apply list_elem_of_fmap. by exists (kv.1, v). }
      rewrite filter_entry_ops_other by done. by apply IH.
Qed.

End PerKey.

(** ** The map builder *)

Section MapBuilderClaims.

Variables (clt : Client) (obj : Object) (path : string).

Lemma JsonPatchMap_patch_of (origMap newMap : GoMap) (rng : Range newMap) :
  patch_of (JsonPatchMap clt obj path origMap newMap rng)
  = map mkJsonPatch (map_patches path origMap (order rng)).
Proof.
  unfold JsonPatchMap. rewrite fold_left_append.
  by destruct (Nat.ltb _ 1).
Qed.

Lemma JsonPatchMap_err_of (origMap newMap : GoMap) (rng : Range newMap) :
  err_of (JsonPatchMap clt obj path origMap newMap rng) = None
  ↔ map_patches path origMap (order rng) ≠ [].
Proof.
  unfold JsonPatchMap.
  destruct (map_patches path origMap (order rng)) as [|p ps]; cbn; split;
    congruence.
Qed.

Lemma map_len_0 (m : GoMap) : map_len m = 0 ↔ m = None ∨ m = Some ∅.
Proof.
  unfold map_len. rewrite map_size_empty_iff. destruct m as [g|]; cbn.
  - split; [intros ->; by right|]. intros [?|?]; congruence.
  - split; [by left|done].
Qed.

Lemma entry_ops_same (m : GoMap) (k v : string) :
  map_index m k = Some v → entry_ops path m (k, v) = [].
Proof. intros H. unfold entry_ops. cbn [fst snd]. rewrite H. by rewrite decide_True. Qed.

Lemma flat_map_entry_ops_same (m : GoMap) (kvs : list (string * string)) :
  (∀ k v, (k, v) ∈ kvs → map_index m k = Some v) →
  flat_map (entry_ops path m) kvs = [].
Proof.
  induction kvs as [|[k v] kvs IH]; intros H; [reflexivity|].
  cbn [flat_map]. rewrite entry_ops_same by (apply H; left).
  apply IH. intros k' v' Hin. apply H. by right.
Qed.

End MapBuilderClaims.

(** C1. When the original map is absent or empty and the desired map is not
    empty, [JsonPatchMap] emits one "add" at [path] whose value is the object
    of the single member made of the entry the [range] yields first, its key
    un-sanitized, and then, for every other entry in the order of the
    [range], one "add" at [path/key] with the key as it is. *)
Theorem C1_JsonPatchMap_creates_container
    (clt : Client) (obj : Object) (path : string)
    (origMap newMap : GoMap) (rng : Range newMap) :
  origMap = None ∨ origMap = Some ∅ →
  map_len newMap ≠ 0 →
  ∃ kv rest,
    order rng = kv :: rest
    ∧ patch_of (JsonPatchMap clt obj path origMap newMap rng)
      = map (λ o, mkJsonPatch (render o))
          (OpAdd path (object1 (UnSanitizeKeyForJsonPatch kv.1) kv.2)
           :: map (λ e, OpAdd (path ++ "/" ++ e.1) (quoted e.2)) rest)
    ∧ err_of (JsonPatchMap clt obj path origMap newMap rng) = None.
Proof.
  intros Horig%map_len_0 Hnew.
  destruct (order rng) as [|kv rest] eqn:Hord.
  { rewrite <- (range_length rng), Hord in Hnew. done. }
  exists kv, rest. split; [done|].
  pose proof (map_patches_empty path origMap kv rest Horig) as Hp.
  split.
  - rewrite JsonPatchMap_patch_of, Hord, Hp. by rewrite map_map.
  - apply JsonPatchMap_err_of. by rewrite Hord, Hp.
Qed.

Lemma C1_witness :
  ((None : GoMap) = None ∨ (None : GoMap) = Some ∅)
  ∧ map_len one_annotation ≠ 0
  ∧ ∃ kv rest,
      order (listed one_annotation) = kv :: rest
      ∧ patch_of (JsonPatchMap test_clt blank_obj "/metadata/annotations"
                    None one_annotation (listed one_annotation))
        = map (λ o, mkJsonPatch (render o))
            (OpAdd "/metadata/annotations"
               (object1 (UnSanitizeKeyForJsonPatch kv.1) kv.2)
             :: map (λ e, OpAdd ("/metadata/annotations" ++ "/" ++ e.1)
                            (quoted e.2)) rest)
      ∧ err_of (JsonPatchMap test_clt blank_obj "/metadata/annotations"
                  None one_annotation (listed one_annotation)) = None.
Proof.
  split; [by left|]. split; [vm_compute; lia|].
  apply C1_JsonPatchMap_creates_container; [by left|vm_compute; lia].
Defined.

(** C2. When the original map has members, the operations [JsonPatchMap]
    emits are, key by key: one "add" at [path/key] for a key of the desired
    map that the original map lacks, one "replace" at [path/key] for a key
    both maps hold with different values, and none for a key they hold with
    the same value or for a key outside the desired map; no operation is a
    "remove", and every operation addresses one of these keys. *)
Theorem C2_JsonPatchMap_add_or_replace
    (clt : Client) (obj : Object) (path : string)
    (origMap newMap : GoMap) (rng : Range newMap) :
  map_len origMap ≠ 0 →
  ∃ ops : list Op,
    patch_of (JsonPatchMap clt obj path origMap newMap rng)
    = map (λ o, mkJsonPatch (render o)) ops
    ∧ (∀ k,
         filter (at_key path k) ops
         = match map_index newMap k, map_index origMap k with
           | Some v, None => [OpAdd (path ++ "/" ++ k) (quoted v)]
           | Some v, Some value =>
               if decide (v = value) then []
               else [OpReplace (path ++ "/" ++ k) (quoted v)]
           | None, _ => []
           end)
    ∧ (∀ o, o ∈ ops → is_remove o = false ∧ ∃ k, at_key path k o).
Proof.
  intros Horig.
  exists (flat_map (entry_ops path origMap) (order rng)).
  split; [|split].
  - rewrite JsonPatchMap_patch_of, map_patches_nonempty by done.
    by rewrite map_map.
  - intros k. destruct (map_index newMap k) as [v|] eqn:Hnew.
    + rewrite (filter_ops_present path origMap k v).
      * unfold entry_ops. cbn [fst snd]. by destruct (map_index origMap k).
      * apply range_NoDup.
      * by apply range_elem_of.
    + apply filter_ops_absent. intros Hin.
      apply list_elem_of_fmap in Hin as [[k' v] [-> Hin]].
      apply range_elem_of in Hin. cbn [fst] in *. congruence.
  - intros o Ho. apply list_elem_of_In, in_flat_map in Ho as [kv [_ Ho]].
    apply list_elem_of_In in Ho. split.
    + by apply entry_ops_not_remove in Ho.
    + exists kv.1. by apply entry_ops_at_key in Ho.
Qed.

Lemma C2_witness :
  map_len labels_orig ≠ 0
  ∧ ∃ ops : list Op,
      patch_of (JsonPatchMap test_clt blank_obj "/metadata/labels"
                  labels_orig labels_new (listed labels_new))
      = map (λ o, mkJsonPatch (render o)) ops
      ∧ (∀ k,
           filter (at_key "/metadata/labels" k) ops
           = match map_index labels_new k, map_index labels_orig k with
             | Some v, None => [OpAdd ("/metadata/labels" ++ "/" ++ k) (quoted v)]
             | Some v, Some value =>
                 if decide (v = value) then []
                 else [OpReplace ("/metadata/labels" ++ "/" ++ k) (quoted v)]
             | None, _ => []
             end)
      ∧ (∀ o, o ∈ ops
           → is_remove o = false ∧ ∃ k, at_key "/metadata/labels" k o).
Proof.
  split; [vm_compute; lia|].
  apply C2_JsonPatchMap_add_or_replace. vm_compute; lia.
Defined.

(** C8. When the slice of patches [JsonPatchMap] has computed is empty, it
    returns no patch, a nil [PatchFunc] and the [NoPatchRequired] error
    "nothing to patch in map"; this is so whenever the desired map is the
    original map and that map has members. *)
Theorem C8_JsonPatchMap_nothing_to_patch
    (clt : Client) (obj : Object) (path : string) :
  (∀ (origMap newMap : GoMap) (rng : Range newMap),
     map_patches path origMap (order rng) = [] →
     JsonPatchMap clt obj path origMap newMap rng
     = ([], None,
        Some (ErrNoPatchRequired (mkNoPatchRequired "nothing to patch in map"))))
  ∧ (∀ (m : GoMap) (rng : Range m),
       map_len m ≠ 0 →
       JsonPatchMap clt obj path m m rng
       = ([], None,
          Some (ErrNoPatchRequired (mkNoPatchRequired "nothing to patch in map")))).
Proof.
  split.
  - intros origMap newMap rng. apply JsonPatchMap_nothing.
  - intros m rng Hlen. apply JsonPatchMap_nothing.
    rewrite map_patches_nonempty by done.
    rewrite flat_map_entry_ops_same; [reflexivity|].
    intros k v. apply range_elem_of.
Qed.

Lemma C8_witness :
  (map_patches "/metadata/labels" labels_orig (order (listed labels_orig)) = []
   ∧ map_len labels_orig ≠ 0)
  ∧ JsonPatchMap test_clt blank_obj "/metadata/labels"
      labels_orig labels_orig (listed labels_orig)
    = ([], None,
       Some (ErrNoPatchRequired (mkNoPatchRequired "nothing to patch in map"))).
Proof.
  split; [split; [vm_compute; reflexivity|vm_compute; lia]|].
  apply (proj2 (C8_JsonPatchMap_nothing_to_patch test_clt blank_obj
                  "/metadata/labels")).
  vm_compute; lia.
Defined.

(** ** The finalizer builders *)

Section FinalizerLoop.

Variable finalizer : string.

Lemma range_finalizers_not_found (idx : nat) (fins : list string) (p : JsonPatch) :
  finalizer ∉ fins → range_finalizers finalizer idx fins p = p.
Proof.
  revert idx. induction fins as [|fin fins IH]; intros idx Hnot; [reflexivity|].
  apply not_elem_of_cons in Hnot as [Hne Hnot]. cbn [range_finalizers].
  rewrite (proj2 (String.eqb_neq fin finalizer)) by congruence.
  by apply IH.
Qed.

Lemma range_finalizers_found (idx i : nat) (fins : list string) (p : JsonPatch) :
  fins !! i = Some finalizer →
  (∀ j, j < i → fins !! j ≠ Some finalizer) →
  range_finalizers finalizer idx fins p
  = mkJsonPatch (render (OpRemove ("/metadata/finalizers/" ++ fmt.Itoa (idx + i)))).
Proof.
  revert idx i. induction fins as [|fin fins IH]; intros idx i Hi Hfirst.
  - by rewrite lookup_nil in Hi.
  - cbn [range_finalizers]. destruct i as [|i].
    + cbn in Hi. injection Hi as ->. rewrite String.eqb_refl.
      by rewrite Sprintf_finalizerRemoveIndexTemplate, Nat.add_0_r.
    + rewrite (proj2 (String.eqb_neq fin finalizer)).
      * rewrite (IH (S idx) i); [by rewrite Nat.add_succ_r|done|].
        intros j Hj. apply (Hfirst (S j)). lia.
      * intros ->. by apply (Hfirst 0); [lia|].
Qed.

Lemma first_match (fins : list string) (i0 : nat) :
  fins !! i0 = Some finalizer →
  ∃ i, fins !! i = Some finalizer ∧ ∀ j, j < i → fins !! j ≠ Some finalizer.
Proof.
  revert i0. induction fins as [|fin fins IH]; intros i0 Hi0.
  - by rewrite lookup_nil in Hi0.
  - destruct (decide (fin = finalizer)) as [->|Hne].
    + exists 0. split; [reflexivity|]. intros j Hj. lia.
    + destruct i0 as [|i0]; [cbn in Hi0; congruence|].
      destruct (IH i0 Hi0) as (i & Hi & Hfirst).
      exists (S i). split; [exact Hi|].
      intros [|j] Hj; cbn; [congruence|]. apply Hfirst. lia.
Qed.

End FinalizerLoop.

(** C3. [JsonPatchFinalizerOut]: with exactly one finalizer on the object,
    one "remove" at [/metadata/finalizers], whatever that finalizer is; with
    more than one, one "remove" at [/metadata/finalizers/i] for the first
    index [i] whose element is the finalizer asked for; and otherwise, when
    no element is that finalizer (an object without finalizers included), an
    empty patch, a nil [PatchFunc] and the [NoPatchRequired] error
    "finalizer index not found". *)
Theorem C3_JsonPatchFinalizerOut
    (clt : Client) (obj : Object) (finalizer : string) :
  (slice_len (GetFinalizers obj) = 1 →
   JsonPatchFinalizerOut clt obj finalizer
   = (mkJsonPatch (render (OpRemove "/metadata/finalizers")),
      Some (apply_patch clt obj (render (OpRemove "/metadata/finalizers"))),
      None))
  ∧ (∀ i : nat,
       1 < slice_len (GetFinalizers obj) →
       slice_range (GetFinalizers obj) !! i = Some finalizer →
       (∀ j, j < i → slice_range (GetFinalizers obj) !! j ≠ Some finalizer) →
       JsonPatchFinalizerOut clt obj finalizer
       = (mkJsonPatch
            (render (OpRemove ("/metadata/finalizers/" ++ fmt.Itoa i))),
          Some (apply_patch clt obj
                  (render (OpRemove ("/metadata/finalizers/" ++ fmt.Itoa i)))),
          None))
  ∧ (slice_len (GetFinalizers obj) ≠ 1 →
     finalizer ∉ slice_range (GetFinalizers obj) →
     JsonPatchFinalizerOut clt obj finalizer
     = (mkJsonPatch "", None,
        Some (ErrNoPatchRequired (mkNoPatchRequired "finalizer index not found")))).
Proof.
  unfold JsonPatchFinalizerOut. split; [|split].
  - intros ->. reflexivity.
  - intros i Hlen Hi Hfirst.
    rewrite (proj2 (Nat.eqb_neq _ 1)) by lia.
    rewrite (range_finalizers_found finalizer 0 i) by done.
    reflexivity.
  - intros Hlen Hnot.
    rewrite (proj2 (Nat.eqb_neq _ 1)) by done.
    by rewrite range_finalizers_not_found.
Qed.

Lemma C3_witness :
  (slice_len (GetFinalizers (mkObject (Some ["do-not-remove-this/finalizer"]))) = 1
   ∧ JsonPatchFinalizerOut test_clt
       (mkObject (Some ["do-not-remove-this/finalizer"])) "remove-this/finalizer"
     = (mkJsonPatch (render (OpRemove "/metadata/finalizers")),
        Some (apply_patch test_clt
                (mkObject (Some ["do-not-remove-this/finalizer"]))
                (render (OpRemove "/metadata/finalizers"))),
        None))
  ∧ (JsonPatchFinalizerOut test_clt (mkObject (Some ["x"; "y"; "y"])) "y"
     = (mkJsonPatch (render (OpRemove "/metadata/finalizers/1")),
        Some (apply_patch test_clt (mkObject (Some ["x"; "y"; "y"]))
                (render (OpRemove "/metadata/finalizers/1"))),
        None))
  ∧ (JsonPatchFinalizerOut test_clt (mkObject (Some ["x"; "y"])) "z"
     = (mkJsonPatch "", None,
        Some (ErrNoPatchRequired (mkNoPatchRequired "finalizer index not found"))))
  ∧ (JsonPatchFinalizerOut test_clt (mkObject None) "z"
     = (mkJsonPatch "", None,
        Some (ErrNoPatchRequired (mkNoPatchRequired "finalizer index not found")))).
Proof.
  split; [split; [reflexivity|]|split; [|split]].
  - apply (proj1 (C3_JsonPatchFinalizerOut _ _ _)). reflexivity.
  - apply (proj1 (proj2 (C3_JsonPatchFinalizerOut test_clt
                           (mkObject (Some ["x"; "y"; "y"])) "y")) 1).
    + cbn. lia.
    + reflexivity.
    + intros j Hj. assert (j = 0) as -> by lia. cbn. congruence.
  - apply (proj2 (proj2 (C3_JsonPatchFinalizerOut _ _ _))).
    + cbn. lia.
    + cbn. intros Hin. by repeat (apply elem_of_cons in Hin as [Hin|Hin];
        [discriminate|]); apply elem_of_nil in Hin.
  - apply (proj2 (proj2 (C3_JsonPatchFinalizerOut _ _ _))).
    + cbn. lia.
    + cbn. apply not_elem_of_nil.
Defined.

(** C6. [JsonPatchFinalizerIn]: when the object's finalizers are nil, one
    "add" at [/metadata/finalizers] whose value is the list of the one
    finalizer; otherwise one "add" at [/metadata/finalizers/-] with the
    finalizer, also when the finalizer is in the list already. *)
Theorem C6_JsonPatchFinalizerIn
    (clt : Client) (obj : Object) (finalizer : string) :
  (GetFinalizers obj = None →
   JsonPatchFinalizerIn clt obj finalizer
   = (mkJsonPatch (render (OpAdd "/metadata/finalizers" (array1 finalizer))),
      Some (apply_patch clt obj
              (render (OpAdd "/metadata/finalizers" (array1 finalizer)))),
      None))
  ∧ (∀ fins : list string,
       GetFinalizers obj = Some fins →
       JsonPatchFinalizerIn clt obj finalizer
       = (mkJsonPatch (render (OpAdd "/metadata/finalizers/-" (quoted finalizer))),
          Some (apply_patch clt obj
                  (render (OpAdd "/metadata/finalizers/-" (quoted finalizer)))),
          None))
  ∧ (∀ fins : list string,
       GetFinalizers obj = Some fins → finalizer ∈ fins →
       patch_of (JsonPatchFinalizerIn clt obj finalizer)
       = mkJsonPatch (render (OpAdd "/metadata/finalizers/-" (quoted finalizer)))).
Proof.
  unfold JsonPatchFinalizerIn. split; [|split].
  - intros ->. by rewrite Sprintf_finalizerAddListTemplate.
  - intros fins ->. by rewrite Sprintf_finalizerAppendTemplate.
  - intros fins -> _. by rewrite Sprintf_finalizerAppendTemplate.
Qed.

Lemma C6_witness :
  JsonPatchFinalizerIn test_clt blank_obj "add-my/finalizer"
  = (mkJsonPatch
       (render (OpAdd "/metadata/finalizers" (array1 "add-my/finalizer"))),
     Some (apply_patch test_clt blank_obj
             (render (OpAdd "/metadata/finalizers" (array1 "add-my/finalizer")))),
     None)
  ∧ patch_of (JsonPatchFinalizerIn test_clt
                (mkObject (Some ["already-existing/finalizer"]))
                "already-existing/finalizer")
    = mkJsonPatch
        (render (OpAdd "/metadata/finalizers/-"
                   (quoted "already-existing/finalizer"))).
Proof.
  split.
  - apply (proj1 (C6_JsonPatchFinalizerIn _ _ _)). reflexivity.
  - apply (proj2 (proj2 (C6_JsonPatchFinalizerIn _ _ _))
             ["already-existing/finalizer"]).
    + reflexivity.
    + left.
Defined.

(** C10. For an object whose finalizers are a slice of no element rather
    than nil, [JsonPatchFinalizerIn] emits the "add" at
    [/metadata/finalizers/-] and not the "add" of a new list at
    [/metadata/finalizers]: the two slices have the same length, and the
    builder tells them apart. *)
Theorem C10_JsonPatchFinalizerIn_empty_slice
    (clt : Client) (finalizer : string) :
  patch_of (JsonPatchFinalizerIn clt (mkObject (Some [])) finalizer)
  = mkJsonPatch (render (OpAdd "/metadata/finalizers/-" (quoted finalizer)))
  ∧ patch_of (JsonPatchFinalizerIn clt (mkObject (Some [])) finalizer)
    ≠ mkJsonPatch (render (OpAdd "/metadata/finalizers" (array1 finalizer)))
  ∧ slice_len (Some []) = slice_len None
  ∧ patch_of (JsonPatchFinalizerIn clt (mkObject None) finalizer)
    ≠ patch_of (JsonPatchFinalizerIn clt (mkObject (Some [])) finalizer).
Proof.
  unfold JsonPatchFinalizerIn, patch_of. cbn [fst GetFinalizers].
  rewrite Sprintf_finalizerAppendTemplate, Sprintf_finalizerAddListTemplate.
  repeat split; try discriminate.
Qed.

(** ** The spec builder *)

Section SpecValue.

Lemma string_app_inv_tail (a b : string) (c : ascii) :
  a ++ String c "" = b ++ String c "" → a = b.
Proof.
  revert b. induction a as [|x a IH]; intros [|y b] H;
    rewrite ?string_app_cons, ?string_app_nil_l in H.
  - reflexivity.
  - injection H as _ H. destruct b; discriminate.
  - injection H as _ H. destruct a; discriminate.
  - injection H as -> H. f_equal. by apply IH.
Qed.

(** The text of a "replace" at [/spec] has one value only. *)
Lemma render_spec_value_inj (v v' : string) :
  render (OpReplace "/spec" v) = render (OpReplace "/spec" v') → v = v'.
Proof.
  rewrite <- !specReplace_render. intros H.
  apply String.app_inj in H. by apply string_app_inv_tail in H.
Qed.

End SpecValue.

(** C7, amended. [JsonPatchSpec]: when marshalling the payload fails, the
    error of the marshaller comes back with an empty patch and a nil
    [PatchFunc]; when it succeeds, the patch is one "replace" at [/spec]
    whose value is the marshalled payload, with a [PatchFunc] and a nil
    error, and every decoder that undoes the marshaller on the type of the
    payload gives the payload back from the value of that operation. *)
Theorem C7_JsonPatchSpec {T : Type}
    (Marshal : option T → string * option error)
    (clt : Client) (obj : Object) (spec : option T) :
  (∀ marshaled e,
     Marshal spec = (marshaled, Some e) →
     JsonPatchSpec Marshal clt obj spec = (mkJsonPatch "", None, Some e))
  ∧ (∀ marshaled,
       Marshal spec = (marshaled, None) →
       JsonPatchSpec Marshal clt obj spec
       = (mkJsonPatch (render (OpReplace "/spec" marshaled)),
          Some (apply_patch clt obj (render (OpReplace "/spec" marshaled))),
          None)
       ∧ ∀ Unmarshal : string → option (option T),
           (∀ x s, Marshal x = (s, None) → Unmarshal s = Some x) →
           ∀ value,
             Get (patch_of (JsonPatchSpec Marshal clt obj spec))
             = render (OpReplace "/spec" value) →
             Unmarshal value = Some spec).
Proof.
  unfold JsonPatchSpec. split.
  - intros marshaled e ->. reflexivity.
  - intros marshaled Hm. rewrite Hm. rewrite specReplace_render.
    split; [reflexivity|].
    intros Unmarshal Hcodec value Hvalue. cbn in Hvalue.
    apply render_spec_value_inj in Hvalue as <-. by apply Hcodec.
Qed.

Lemma C7_witness :
  (marshal_unsupported (Some ())
   = ("", Some (ErrOther "json: unsupported type: chan int"))
   ∧ JsonPatchSpec marshal_unsupported test_clt blank_obj (Some ())
     = (mkJsonPatch "", None, Some (ErrOther "json: unsupported type: chan int")))
  ∧ (marshal_bool (Some true) = ("true", None)
     ∧ (∀ x s, marshal_bool x = (s, None) → unmarshal_bool s = Some x)
     ∧ JsonPatchSpec marshal_bool test_clt blank_obj (Some true)
       = (mkJsonPatch (render (OpReplace "/spec" "true")),
          Some (apply_patch test_clt blank_obj
                  (render (OpReplace "/spec" "true"))),
          None)
     ∧ unmarshal_bool "true" = Some (Some true)).
Proof.
  assert (Hcodec : ∀ x s, marshal_bool x = (s, None) → unmarshal_bool s = Some x).
  { intros [[|]|] s [= <-]; reflexivity. }
  split; [split; [reflexivity|]|split; [reflexivity|split; [exact Hcodec|]]].
  - apply (proj1 (C7_JsonPatchSpec marshal_unsupported test_clt blank_obj
                    (Some ())) "").
    reflexivity.
  - destruct (proj2 (C7_JsonPatchSpec marshal_bool test_clt blank_obj
                       (Some true)) "true" eq_refl) as [Hres Hdec].
    split; [exact Hres|].
    apply (Hdec unmarshal_bool Hcodec "true"). reflexivity.
Defined.

(** C7, as stated, fails: at the type [**bool] the nil pointer and the
    pointer to a nil pointer are marshalled to the same text and get the same
    patch, with a nil error, so that no decoder gives the payload back from
    the value of the operation for both. *)
Lemma C7_counterexample :
  ¬ ∃ Unmarshal : string → option (option (option bool)),
      ∀ spec : option (option bool),
        err_of (JsonPatchSpec marshal_bool_ptr test_clt blank_obj spec) = None →
        ∀ value,
          Get (patch_of (JsonPatchSpec marshal_bool_ptr test_clt blank_obj spec))
          = render (OpReplace "/spec" value) →
          Unmarshal value = Some spec.
Proof.
  intros [Unmarshal Hdec].
  pose proof (Hdec None eq_refl "null" eq_refl) as Hnil.
  pose proof (Hdec (Some None) eq_refl "null" eq_refl) as Hptr.
  congruence.
Qed.

(** ** Every builder *)

(** C9. A builder that returns a nil error returns at least one operation:
    [JsonPatchMap] a slice of patches that is not empty, the other builders a
    patch that is the text of an operation, which is not the empty text. *)
Theorem C9_patch_never_empty (clt : Client) (obj : Object) :
  (∀ (path : string) (origMap newMap : GoMap) (rng : Range newMap),
     err_of (JsonPatchMap clt obj path origMap newMap rng) = None →
     ∃ o ops,
       patch_of (JsonPatchMap clt obj path origMap newMap rng)
       = map (λ o, mkJsonPatch (render o)) (o :: ops))
  ∧ (∀ finalizer : string,
       err_of (JsonPatchFinalizerIn clt obj finalizer) = None →
       ∃ o, patch_of (JsonPatchFinalizerIn clt obj finalizer)
            = mkJsonPatch (render o)
            ∧ render o ≠ "")
  ∧ (∀ finalizer : string,
       err_of (JsonPatchFinalizerOut clt obj finalizer) = None →
       ∃ o, patch_of (JsonPatchFinalizerOut clt obj finalizer)
            = mkJsonPatch (render o)
            ∧ render o ≠ "")
  ∧ (∀ (T : Type) (Marshal : option T → string * option error) (spec : option T),
       err_of (JsonPatchSpec Marshal clt obj spec) = None →
       ∃ o, patch_of (JsonPatchSpec Marshal clt obj spec)
            = mkJsonPatch (render o)
            ∧ render o ≠ "").
Proof.
  split; [|split; [|split]].
  - intros path origMap newMap rng Herr.
    apply JsonPatchMap_err_of in Herr.
    rewrite JsonPatchMap_patch_of.
    unfold map_patches in *. destruct (Nat.eqb (map_len origMap) 0).
    + destruct (order rng) as [|kv rest]; [done|].
      rewrite add_all_first, map_map. eauto.
    + rewrite add_replace_fold in *. cbn [app] in *.
      destruct (flat_map _ _) as [|o ops]; [done|].
      rewrite map_map. eauto.
  - intros finalizer _. unfold JsonPatchFinalizerIn, patch_of. cbn [fst].
    destruct (GetFinalizers obj).
    + rewrite Sprintf_finalizerAppendTemplate. eauto using render_nonempty.
    + rewrite Sprintf_finalizerAddListTemplate. eauto using render_nonempty.
  - intros finalizer. unfold JsonPatchFinalizerOut, patch_of, err_of.
    destruct (Nat.eqb _ 1).
    + intros _. cbn [fst]. exists (OpRemove "/metadata/finalizers").
      split; [reflexivity|apply render_nonempty].
    + destruct (decide (finalizer ∈ slice_range (GetFinalizers obj))) as [Hin|Hnot].
      * apply list_elem_of_lookup in Hin as [i0 Hi0].
        destruct (first_match finalizer _ _ Hi0) as (i & Hi & Hfirst).
        rewrite (range_finalizers_found finalizer 0 i) by done.
        intros _. destruct (Nat.eqb _ 0); cbn [fst];
          eauto using render_nonempty.
      * rewrite range_finalizers_not_found by done. cbn. discriminate.
  - intros T Marshal spec. unfold JsonPatchSpec, patch_of, err_of.
    destruct (Marshal spec) as [marshaled [e|]]; [discriminate|].
    intros _. cbn [fst]. rewrite specReplace_render.
    eauto using render_nonempty.
Qed.

Lemma C9_witness :
  (err_of (JsonPatchMap test_clt blank_obj "/metadata/labels"
             labels_orig labels_new (listed labels_new)) = None
   ∧ ∃ o ops,
       patch_of (JsonPatchMap test_clt blank_obj "/metadata/labels"
                   labels_orig labels_new (listed labels_new))
       = map (λ o, mkJsonPatch (render o)) (o :: ops))
  ∧ (err_of (JsonPatchFinalizerIn test_clt blank_obj "add-my/finalizer") = None
     ∧ ∃ o, patch_of (JsonPatchFinalizerIn test_clt blank_obj "add-my/finalizer")
            = mkJsonPatch (render o)
            ∧ render o ≠ "")
  ∧ (err_of (JsonPatchFinalizerOut test_clt (mkObject (Some ["x"; "y"])) "x")
     = None
     ∧ ∃ o, patch_of (JsonPatchFinalizerOut test_clt
                        (mkObject (Some ["x"; "y"])) "x")
            = mkJsonPatch (render o)
            ∧ render o ≠ "")
  ∧ (err_of (JsonPatchSpec marshal_bool test_clt blank_obj (Some false)) = None
     ∧ ∃ o, patch_of (JsonPatchSpec marshal_bool test_clt blank_obj (Some false))
            = mkJsonPatch (render o)
            ∧ render o ≠ "").
Proof.
  pose proof (C9_patch_never_empty test_clt blank_obj) as (Hmap & Hin & _ & Hspec).
  pose proof (C9_patch_never_empty test_clt (mkObject (Some ["x"; "y"])))
    as (_ & _ & Hout & _).
  split; [|split; [|split]].
  - split; [vm_compute; reflexivity|]. apply Hmap. vm_compute; reflexivity.
  - split; [reflexivity|]. apply Hin. reflexivity.
  - split; [reflexivity|]. apply Hout. reflexivity.
  - split; [reflexivity|]. apply Hspec. reflexivity.
Defined.

(** ** The pointer escaper *)

(** C5. Un-sanitizing a sanitized key gives the key back, for every string;
    [SanitizeKeyForJsonPatch] replaces [~] with [~0] and then [/] with [~1],
    [UnSanitizeKeyForJsonPatch] replaces [~1] with [/] and then [~0] with
    [~]. *)
Theorem C5_UnSanitize_Sanitize (s : string) :
  UnSanitizeKeyForJsonPatch (SanitizeKeyForJsonPatch s) = s
  ∧ SanitizeKeyForJsonPatch s
    = strings.ReplaceAll (strings.ReplaceAll s "~" "~0") "/" "~1"
  ∧ UnSanitizeKeyForJsonPatch s
    = strings.ReplaceAll (strings.ReplaceAll s "~1" "/") "~0" "~".
Proof. split; [apply UnSanitize_Sanitize|split; reflexivity]. Qed.

(** C4, as stated, fails: the string [~/] is not what sanitizing its
    un-sanitized form gives. *)
Lemma C4_counterexample :
  ¬ (UnSanitizeKeyForJsonPatch (SanitizeKeyForJsonPatch "~/") = "~/"
     ∧ SanitizeKeyForJsonPatch (UnSanitizeKeyForJsonPatch "~/") = "~/").
Proof. intros [_ H]. vm_compute in H. discriminate. Qed.

(** C4, amended. Un-sanitizing a sanitized string gives the string back,
    for every string; sanitizing an un-sanitized string gives the string
    back exactly for the escaped tokens, the strings without [/] in which
    every [~] is followed by [0] or [1] (they are the sanitized strings). *)
Theorem C4_escaper_inverse (t : string) :
  UnSanitizeKeyForJsonPatch (SanitizeKeyForJsonPatch t) = t
  ∧ (SanitizeKeyForJsonPatch (UnSanitizeKeyForJsonPatch t) = t
     ↔ escaped_token t = true).
Proof. split; [apply UnSanitize_Sanitize|apply Sanitize_UnSanitize_iff]. Qed.

Lemma C4_witness :
  escaped_token "my~0map~1key" = true
  ∧ SanitizeKeyForJsonPatch (UnSanitizeKeyForJsonPatch "my~0map~1key")
    = "my~0map~1key".
Proof.
  split; [reflexivity|].
  apply (proj2 (C4_escaper_inverse "my~0map~1key")). reflexivity.
Defined.

(** ** More on the pointer escaper *)

Section EscaperShape.

Ltac ascii_split c x :=
  let E := fresh "E" in
  destruct (Ascii.eqb_spec c x) as [E|E]; [subst c|].

Lemma esc_tilde_app (a b : string) :
  esc_tilde (a ++ b) = esc_tilde a ++ esc_tilde b.
Proof.
  induction a as [|c a IH]; [reflexivity|].
  rewrite string_app_cons. cbn [esc_tilde]. rewrite IH.
  by destruct (Ascii.eqb c "~").
Qed.

Lemma esc_slash_app (a b : string) :
  esc_slash (a ++ b) = esc_slash a ++ esc_slash b.
Proof.
  induction a as [|c a IH]; [reflexivity|].
  rewrite string_app_cons. cbn [esc_slash]. rewrite IH.
  by destruct (Ascii.eqb c "/").
Qed.

Lemma esc_length (s : string) :
  String.length (esc_slash (esc_tilde s)) = (String.length s + specials s)%nat.
Proof.
  induction s as [|c s IH]; [reflexivity|].
  cbn [esc_tilde specials]. ascii_split c "~"%char.
  - cbn [esc_slash Ascii.eqb Bool.eqb orb String.length]. rewrite IH. cbn. lia.
  - cbn [esc_slash orb]. ascii_split c "/"%char.
    + cbn [String.length]. rewrite IH. lia.
    + cbn [String.length]. rewrite IH. lia.
Qed.

Lemma esc_plain (s : string) :
  specials s = 0 → esc_slash (esc_tilde s) = s.
Proof.
  induction s as [|c s IH]; [reflexivity|].
  cbn [specials esc_tilde]. ascii_split c "~"%char; [cbn; lia|].
  cbn [orb esc_slash]. ascii_split c "/"%char; [lia|].
  intros H. by rewrite IH.
Qed.

Lemma escaped_token_get (t : string) :
  escaped_token t = true →
  ∀ i, String.get i t ≠ Some "/"%char
       ∧ (String.get i t = Some "~"%char →
          String.get (S i) t = Some "0"%char ∨ String.get (S i) t = Some "1"%char).
Proof.
  induction t as [|c r IH]; intros Hesc i.
  - destruct i; cbn; split; congruence.
  - cbn [escaped_token] in Hesc.
    ascii_split c "/"%char; [discriminate|].
    assert (Hr : escaped_token r = true).
    { ascii_split c "~"%char; [|done].
      destruct r; [discriminate|]. by apply andb_prop in Hesc as [_ ?]. }
    destruct i as [|i]; [|exact (IH Hr i)].
    cbn [String.get]. split; [congruence|].
    intros [= ->]. rewrite Ascii.eqb_refl in Hesc.
    destruct r as [|d r]; [discriminate|].
    apply andb_prop in Hesc as [Hd _]. cbn [String.get].
    apply orb_prop in Hd as [Hd|Hd]; apply Ascii.eqb_eq in Hd; subst d; auto.
Qed.

Lemma replace_from_no_first (a : ascii) (p new s : string) :
  occurs a s = false →
  strings.replace_from (String a p) new 0 s = s.
Proof.
  induction s as [|c s IH]; [reflexivity|].
  cbn [occurs]. intros [Hc Hs]%orb_false_elim.
  apply Ascii.eqb_neq in Hc.
  rewrite replace_from_miss by (apply prefix_cons_ne; congruence).
  by rewrite IH.
Qed.

End EscaperShape.

(** X1. The escaper never gives one text for two keys. *)
Theorem X1_Sanitize_injective (s1 s2 : string) :
  SanitizeKeyForJsonPatch s1 = SanitizeKeyForJsonPatch s2 ↔ s1 = s2.
Proof.
  split; [|by intros ->].
  intros H. rewrite <- (UnSanitize_Sanitize s1), H. apply UnSanitize_Sanitize.
Qed.

(** X2. The escaper gives a key back unchanged exactly when the key holds
    neither [~] nor [/]; every such character adds one byte to the result. *)
Theorem X2_Sanitize_length_identity (s : string) :
  String.length (SanitizeKeyForJsonPatch s)
  = (String.length s + specials s)%nat
  ∧ (SanitizeKeyForJsonPatch s = s ↔ specials s = 0).
Proof.
  rewrite Sanitize_esc. split; [apply esc_length|]. split.
  - intros H. pose proof (esc_length s) as Hlen. rewrite H in Hlen. lia.
  - apply esc_plain.
Qed.

(** X3. A sanitized key is one reference token of a JSON pointer: it holds
    no [/], and each of its [~] is followed by [0] or by [1]. *)
Theorem X3_Sanitize_reference_token (s : string) (i : nat) :
  String.get i (SanitizeKeyForJsonPatch s) ≠ Some "/"%char
  ∧ (String.get i (SanitizeKeyForJsonPatch s) = Some "~"%char →
     String.get (S i) (SanitizeKeyForJsonPatch s) = Some "0"%char
     ∨ String.get (S i) (SanitizeKeyForJsonPatch s) = Some "1"%char).
Proof. apply escaped_token_get, escaped_token_Sanitize. Qed.

Lemma X3_witness :
  String.get 2 (SanitizeKeyForJsonPatch "my~map/key") = Some "~"%char
  ∧ (String.get 3 (SanitizeKeyForJsonPatch "my~map/key") = Some "0"%char
     ∨ String.get 3 (SanitizeKeyForJsonPatch "my~map/key") = Some "1"%char).
Proof.
  split; [reflexivity|].
  apply (proj2 (X3_Sanitize_reference_token "my~map/key" 2)). reflexivity.
Defined.

(** X4. Sanitizing goes part by part: the sanitized form of two strings put
    together is their sanitized forms put together. *)
Theorem X4_Sanitize_app (a b : string) :
  SanitizeKeyForJsonPatch (a ++ b)
  = SanitizeKeyForJsonPatch a ++ SanitizeKeyForJsonPatch b.
Proof. rewrite !Sanitize_esc. by rewrite esc_tilde_app, esc_slash_app. Qed.

(** X5. Un-sanitizing leaves a string without [~] as it is. *)
Theorem X5_UnSanitize_plain (s : string) :
  occurs "~" s = false → UnSanitizeKeyForJsonPatch s = s.
Proof.
  intros H. unfold UnSanitizeKeyForJsonPatch, strings.ReplaceAll.
  rewrite (replace_from_no_first "~" "1" "/" s H).
  exact (replace_from_no_first "~" "0" "~" s H).
Qed.

Lemma X5_witness :
  occurs "~" "annotation_key1" = false
  ∧ UnSanitizeKeyForJsonPatch "annotation_key1" = "annotation_key1".
Proof.
  split; [reflexivity|]. apply X5_UnSanitize_plain. reflexivity.
Defined.

(** ** When the builders fail, and what their variants do then *)

Section Outcomes.

Variables (clt : Client) (obj : Object).

Lemma JsonPatchFinalizerOut_found (finalizer : string) :
  slice_len (GetFinalizers obj) = 1
  ∨ finalizer ∈ slice_range (GetFinalizers obj) →
  ∃ p, JsonPatchFinalizerOut clt obj finalizer
       = (mkJsonPatch (render (OpRemove p)),
          Some (apply_patch clt obj (render (OpRemove p))), None).
Proof.
  intros Hcase. unfold JsonPatchFinalizerOut.
  destruct (Nat.eqb_spec (slice_len (GetFinalizers obj)) 1) as [Hlen|Hlen];
    [by exists "/metadata/finalizers"|].
  destruct Hcase as [?|Hin]; [done|].
  apply list_elem_of_lookup in Hin as [i0 Hi0].
  destruct (first_match finalizer _ _ Hi0) as (i & Hi & Hfirst).
  rewrite (range_finalizers_found finalizer 0 i) by done.
  by exists ("/metadata/finalizers/" ++ fmt.Itoa (0 + i)).
Qed.

Lemma JsonPatchFinalizerOut_not_found (finalizer : string) :
  slice_len (GetFinalizers obj) ≠ 1 →
  finalizer ∉ slice_range (GetFinalizers obj) →
  JsonPatchFinalizerOut clt obj finalizer
  = (mkJsonPatch "", None,
     Some (ErrNoPatchRequired (mkNoPatchRequired "finalizer index not found"))).
Proof.
  intros Hlen Hnot. unfold JsonPatchFinalizerOut.
  rewrite (proj2 (Nat.eqb_neq _ 1)) by done.
  by rewrite range_finalizers_not_found.
Qed.

Lemma entry_ops_nil_iff (path : string) (m : GoMap) (k v : string) :
  entry_ops path m (k, v) = [] ↔ map_index m k = Some v.
Proof.
  unfold entry_ops. cbn [fst snd].
  destruct (map_index m k) as [value|]; [case_decide|]; split;
    congruence.
Qed.

Lemma flat_map_nil_iff {A B : Type} (f : A → list B) (l : list A) :
  flat_map f l = [] ↔ ∀ x, x ∈ l → f x = [].
Proof.
  induction l as [|x l IH]; cbn [flat_map].
  - split; [|done]. intros _ x Hx. by apply elem_of_nil in Hx.
  - split.
    + intros [Hx Hl]%app_eq_nil y [->|Hy]%elem_of_cons; [done|].
      by apply IH.
    + intros H. rewrite (H x) by left. apply IH. intros y Hy. apply H. by right.
Qed.

Lemma map_patches_nil_iff (path : string) (origMap newMap : GoMap)
    (rng : Range newMap) :
  map_patches path origMap (order rng) = []
  ↔ map_entries newMap ⊆ map_entries origMap.
Proof.
  rewrite map_subseteq_spec.
  destruct (decide (map_len origMap = 0)) as [Hz|Hnz].
  - assert (Hempty : map_entries origMap = ∅) by by apply map_size_empty_iff.
    destruct (order rng) as [|[k v] rest] eqn:Hord.
    + split; [|by unfold map_patches; rewrite Hz].
      intros _ k v Hk. apply (range_elem_of rng) in Hk.
      rewrite Hord in Hk. by apply elem_of_nil in Hk.
    + rewrite map_patches_empty by done. split; [done|].
      intros Hsub. exfalso.
      assert (Hin : (k, v) ∈ order rng) by (rewrite Hord; left).
      apply range_elem_of, Hsub in Hin. by rewrite Hempty, lookup_empty in Hin.
  - rewrite map_patches_nonempty by done. split.
    + intros H%map_eq_nil k v Hk.
      apply (entry_ops_nil_iff path).
      apply (proj1 (flat_map_nil_iff _ _) H (k, v)).
      by apply range_elem_of.
    + intros Hsub. apply (f_equal (map render) (y := [])).
      apply flat_map_nil_iff. intros [k v] Hin.
      apply entry_ops_nil_iff, Hsub. by apply (range_elem_of rng).
Qed.

End Outcomes.


(** X7. [JsonPatchFinalizerOut] fails exactly when the object does not have
    one finalizer only and the finalizer asked for is not among its
    finalizers; the error is then the [NoPatchRequired] one, with which
    [JsonPatchFinalizerOutP] and [JsonPatchFinalizerOutQ] panic.  In every
    other case the three functions return, with one "remove" and its
    [PatchFunc]. *)
Theorem X7_JsonPatchFinalizerOut_outcomes
    (clt : Client) (obj : Object) (finalizer : string) :
  (err_of (JsonPatchFinalizerOut clt obj finalizer) = None
   ↔ slice_len (GetFinalizers obj) = 1
     ∨ finalizer ∈ slice_range (GetFinalizers obj))
  ∧ (slice_len (GetFinalizers obj) = 1
     ∨ finalizer ∈ slice_range (GetFinalizers obj) →
     ∃ p,
       JsonPatchFinalizerOut clt obj finalizer
       = (mkJsonPatch (render (OpRemove p)),
          Some (apply_patch clt obj (render (OpRemove p))), None)
       ∧ JsonPatchFinalizerOutP clt obj finalizer
         = Returns (mkJsonPatch (render (OpRemove p)),
                    Some (apply_patch clt obj (render (OpRemove p))))
       ∧ JsonPatchFinalizerOutQ clt obj finalizer
         = Returns (Some (apply_patch clt obj (render (OpRemove p)))))
  ∧ (¬ (slice_len (GetFinalizers obj) = 1
        ∨ finalizer ∈ slice_range (GetFinalizers obj)) →
     JsonPatchFinalizerOutP clt obj finalizer
     = Panics (ErrNoPatchRequired (mkNoPatchRequired "finalizer index not found"))
     ∧ JsonPatchFinalizerOutQ clt obj finalizer
       = Panics (ErrNoPatchRequired (mkNoPatchRequired "finalizer index not found"))).
Proof.
  pose proof (JsonPatchFinalizerOut_found clt obj finalizer) as Hfound.
  assert (Hnot :
    ¬ (slice_len (GetFinalizers obj) = 1
       ∨ finalizer ∈ slice_range (GetFinalizers obj)) →
    JsonPatchFinalizerOut clt obj finalizer
    = (mkJsonPatch "", None,
       Some (ErrNoPatchRequired (mkNoPatchRequired "finalizer index not found")))).
  { intros Hcase. apply JsonPatchFinalizerOut_not_found; tauto. }
  split; [|split].
  - split.
    + intros Herr.
      destruct (decide (slice_len (GetFinalizers obj) = 1
                        ∨ finalizer ∈ slice_range (GetFinalizers obj)))
        as [?|Hcase]; [done|].
      rewrite (Hnot Hcase) in Herr. discriminate.
    + intros [p ->]%Hfound. reflexivity.
  - intros [p Hp]%Hfound. exists p.
    unfold JsonPatchFinalizerOutQ, JsonPatchFinalizerOutP. by rewrite Hp.
  - intros Hcase%Hnot.
    unfold JsonPatchFinalizerOutQ, JsonPatchFinalizerOutP. by rewrite Hcase.
Qed.

Lemma X7_witness :
  "x" ∈ slice_range (Some ["x"; "y"])
  ∧ (∃ p, JsonPatchFinalizerOutQ test_clt (mkObject (Some ["x"; "y"])) "x"
          = Returns (Some (apply_patch test_clt (mkObject (Some ["x"; "y"]))
                             (render (OpRemove p)))))
  ∧ JsonPatchFinalizerOutQ test_clt (mkObject (Some ["x"; "y"])) "z"
    = Panics (ErrNoPatchRequired (mkNoPatchRequired "finalizer index not found")).
Proof.
  assert (Hin : "x" ∈ slice_range (Some ["x"; "y"])) by left.
  split; [exact Hin|]. split.
  - destruct (proj1 (proj2 (X7_JsonPatchFinalizerOut_outcomes test_clt
                              (mkObject (Some ["x"; "y"])) "x")) (or_intror Hin))
      as (p & _ & _ & Hq).
    by exists p.
  - apply (proj2 (proj2 (X7_JsonPatchFinalizerOut_outcomes test_clt
                           (mkObject (Some ["x"; "y"])) "z"))).
    cbn. intros [Hlen|Hz]; [lia|].
    by repeat (apply elem_of_cons in Hz as [Hz|Hz]; [discriminate|]);
      apply elem_of_nil in Hz.
Defined.

Section Shapes.

Variables (clt : Client) (obj : Object).

Lemma map_Get_mkJsonPatch (l : list string) : map Get (map mkJsonPatch l) = l.
Proof. induction l as [|x l IH]; [reflexivity|]. cbn. by rewrite IH. Qed.

Lemma JsonPatchFinalizerIn_shaped (finalizer : string) :
  shaped (JsonPatchFinalizerIn clt obj finalizer).
Proof. left. unfold JsonPatchFinalizerIn. eauto. Qed.

Lemma JsonPatchFinalizerOut_shaped (finalizer : string) :
  shaped (JsonPatchFinalizerOut clt obj finalizer).
Proof.
  unfold JsonPatchFinalizerOut.
  destruct (Nat.eqb _ 1); [left; eauto|].
  destruct (Nat.eqb _ 0); [right|left]; eauto.
Qed.

Lemma JsonPatchMap_shaped (path : string) (origMap newMap : GoMap)
    (rng : Range newMap) :
  shaped (JsonPatchMap clt obj path origMap newMap rng).
Proof.
  unfold JsonPatchMap. destruct (Nat.ltb _ 1); [right|left]; eauto.
Qed.

Lemma JsonPatchSpec_shaped {T : Type}
    (Marshal : option T → string * option error) (spec : option T) :
  shaped (JsonPatchSpec Marshal clt obj spec).
Proof.
  unfold JsonPatchSpec.
  destruct (Marshal spec) as [marshaled [e|]]; [right|left]; eauto.
Qed.

(** What the two variants of a builder do, from the shape of its result. *)
Lemma variants_of_shaped {A : Type} (r : A * option PatchFunc * option error)
    (P : outcome (A * option PatchFunc)) (Q : outcome (option PatchFunc)) :
  shaped r →
  P = (let '(p, f, e) := r in
       match e with Some e => Panics e | None => Returns (p, f) end) →
  Q = (match P with Panics e => Panics e | Returns (_, f) => Returns f end) →
  variants_agree r P Q.
Proof.
  destruct r as [[p f] e]. unfold variants_agree, shaped, func_of, err_of.
  cbn [fst snd].
  intros Hshape -> ->.
  destruct Hshape as [(g & -> & ->)|(e' & -> & ->)]; repeat split;
    try congruence; try (intros [? ?]; congruence); eauto.
  intros f [= <-]. eauto.
Qed.

End Shapes.

(** X8. [JsonPatchMap] has nothing to patch exactly when every entry of the
    desired map is in the original map with the same value (an empty or nil
    desired map included): it then returns no patch, a nil [PatchFunc] and
    the [NoPatchRequired] error, with which [JsonPatchMapP] and
    [JsonPatchMapQ] panic.  In every other case the three functions return,
    with at least one patch and a [PatchFunc]. *)
Theorem X8_JsonPatchMap_outcomes
    (clt : Client) (obj : Object) (path : string)
    (origMap newMap : GoMap) (rng : Range newMap) :
  (map_entries newMap ⊆ map_entries origMap →
   JsonPatchMap clt obj path origMap newMap rng
   = ([], None,
      Some (ErrNoPatchRequired (mkNoPatchRequired "nothing to patch in map")))
   ∧ JsonPatchMapP clt obj path origMap newMap rng
     = Panics (ErrNoPatchRequired (mkNoPatchRequired "nothing to patch in map"))
   ∧ JsonPatchMapQ clt obj path origMap newMap rng
     = Panics (ErrNoPatchRequired (mkNoPatchRequired "nothing to patch in map")))
  ∧ (¬ map_entries newMap ⊆ map_entries origMap →
     ∃ p ps f,
       JsonPatchMap clt obj path origMap newMap rng = (p :: ps, Some f, None)
       ∧ JsonPatchMapP clt obj path origMap newMap rng
         = Returns (p :: ps, Some f)
       ∧ JsonPatchMapQ clt obj path origMap newMap rng = Returns (Some f)).
Proof.
  unfold JsonPatchMapQ, JsonPatchMapP.
  rewrite <- (map_patches_nil_iff path origMap newMap rng). split.
  - intros Hnil. by rewrite (JsonPatchMap_nothing clt obj path _ _ _ Hnil).
  - intros Hnot.
    destruct (map_patches path origMap (order rng)) as [|q qs] eqn:Hq; [done|].
    rewrite (JsonPatchMap_patches clt obj path _ _ _ q qs Hq).
    by eexists _, _, _.
Qed.

Lemma X8_witness :
  map_entries labels_orig ⊆ map_entries labels_orig
  ∧ JsonPatchMapQ test_clt blank_obj "/metadata/labels"
      labels_orig labels_orig (listed labels_orig)
    = Panics (ErrNoPatchRequired (mkNoPatchRequired "nothing to patch in map")).
Proof.
  split; [done|].
  apply (proj1 (X8_JsonPatchMap_outcomes test_clt blank_obj "/metadata/labels"
                  labels_orig labels_orig (listed labels_orig))).
  done.
Defined.

(** X9. Every builder returns either a nil error together with a
    [PatchFunc], or an error together with a nil [PatchFunc]; the error of
    [JsonPatchSpec] is the one of the marshaller. *)
Theorem X9_builders_error_xor_PatchFunc (clt : Client) (obj : Object) :
  (∀ finalizer, shaped (JsonPatchFinalizerIn clt obj finalizer))
  ∧ (∀ finalizer, shaped (JsonPatchFinalizerOut clt obj finalizer))
  ∧ (∀ path origMap newMap (rng : Range newMap),
       shaped (JsonPatchMap clt obj path origMap newMap rng))
  ∧ (∀ (T : Type) (Marshal : option T → string * option error) spec,
       shaped (JsonPatchSpec Marshal clt obj spec)
       ∧ err_of (JsonPatchSpec Marshal clt obj spec) = (Marshal spec).2).
Proof.
  split; [|split; [|split]].
  - apply JsonPatchFinalizerIn_shaped.
  - apply JsonPatchFinalizerOut_shaped.
  - apply JsonPatchMap_shaped.
  - intros T Marshal spec. split; [apply JsonPatchSpec_shaped|].
    unfold JsonPatchSpec. by destruct (Marshal spec) as [marshaled [e|]].
Qed.

(** X10. The [...P] and [...Q] variants of every builder panic exactly when
    the builder returns an error, and with that error; otherwise [...P]
    returns the patch and the [PatchFunc] of the builder and [...Q] its
    [PatchFunc], which is never nil. *)
Theorem X10_variants_panic_on_error (clt : Client) (obj : Object) :
  (∀ finalizer,
     variants_agree (JsonPatchFinalizerIn clt obj finalizer)
       (JsonPatchFinalizerInP clt obj finalizer)
       (JsonPatchFinalizerInQ clt obj finalizer))
  ∧ (∀ finalizer,
       variants_agree (JsonPatchFinalizerOut clt obj finalizer)
         (JsonPatchFinalizerOutP clt obj finalizer)
         (JsonPatchFinalizerOutQ clt obj finalizer))
  ∧ (∀ path origMap newMap (rng : Range newMap),
       variants_agree (JsonPatchMap clt obj path origMap newMap rng)
         (JsonPatchMapP clt obj path origMap newMap rng)
         (JsonPatchMapQ clt obj path origMap newMap rng))
  ∧ (∀ (T : Type) (Marshal : option T → string * option error) spec,
       variants_agree (JsonPatchSpec Marshal clt obj spec)
         (JsonPatchSpecP Marshal clt obj spec)
         (JsonPatchSpecQ Marshal clt obj spec)).
Proof.
  split; [|split; [|split]]; intros.
  - by apply variants_of_shaped; [apply JsonPatchFinalizerIn_shaped|..].
  - by apply variants_of_shaped; [apply JsonPatchFinalizerOut_shaped|..].
  - by apply variants_of_shaped; [apply JsonPatchMap_shaped|..].
  - by apply variants_of_shaped; [apply JsonPatchSpec_shaped|..].
Qed.

Lemma X10_witness :
  JsonPatchSpecQ marshal_unsupported test_clt blank_obj (Some ())
  = Panics (ErrOther "json: unsupported type: chan int")
  ∧ err_of (JsonPatchSpec marshal_unsupported test_clt blank_obj (Some ()))
    = Some (ErrOther "json: unsupported type: chan int")
  ∧ is_Some (Some (apply_patch test_clt blank_obj
                     (render (OpReplace "/spec" "true")))).
Proof.
  pose proof (X10_variants_panic_on_error test_clt blank_obj)
    as (_ & _ & _ & Hspec).
  destruct (Hspec unit marshal_unsupported (Some ())) as (_ & Hq & _).
  destruct (Hspec bool marshal_bool (Some true)) as (_ & _ & _ & _ & Hsome).
  split; [by apply Hq|]. split; [reflexivity|].
  apply Hsome. reflexivity.
Defined.

(** X11. The [PatchFunc] of a builder sends what the builder has returned
    for the log: one patch of the JSON type whose data is the array of the
    returned patch, or of the returned patches joined by commas; its result
    is the one of the client. *)
Theorem X11_PatchFunc_sends_returned_patches (clt : Client) (obj : Object) :
  (∀ finalizer f,
     func_of (JsonPatchFinalizerIn clt obj finalizer) = Some f →
     ∀ u, f u = Patch clt obj
                  (mkRawPatch JSONPatchType
                     ("[" ++ Get (patch_of (JsonPatchFinalizerIn clt obj finalizer))
                          ++ "]")))
  ∧ (∀ finalizer f,
       func_of (JsonPatchFinalizerOut clt obj finalizer) = Some f →
       ∀ u, f u = Patch clt obj
                    (mkRawPatch JSONPatchType
                       ("[" ++ Get (patch_of (JsonPatchFinalizerOut clt obj finalizer))
                            ++ "]")))
  ∧ (∀ path origMap newMap (rng : Range newMap) f,
       func_of (JsonPatchMap clt obj path origMap newMap rng) = Some f →
       ∀ u, f u = Patch clt obj
                    (mkRawPatch JSONPatchType
                       ("[" ++ strings.Join
                                 (map Get (patch_of (JsonPatchMap clt obj path
                                                       origMap newMap rng))) ","
                            ++ "]")))
  ∧ (∀ (T : Type) (Marshal : option T → string * option error) spec f,
       func_of (JsonPatchSpec Marshal clt obj spec) = Some f →
       ∀ u, f u = Patch clt obj
                    (mkRawPatch JSONPatchType
                       ("[" ++ Get (patch_of (JsonPatchSpec Marshal clt obj spec))
                            ++ "]"))).
Proof.
  split; [|split; [|split]].
  - intros finalizer f. unfold JsonPatchFinalizerIn.
    intros [= <-] u. reflexivity.
  - intros finalizer f. unfold JsonPatchFinalizerOut.
    destruct (Nat.eqb _ 1); [intros [= <-] u; reflexivity|].
    destruct (Nat.eqb _ 0); [discriminate|]. intros [= <-] u. reflexivity.
  - intros path origMap newMap rng f.
    rewrite JsonPatchMap_patch_of, map_Get_mkJsonPatch.
    unfold JsonPatchMap. destruct (Nat.ltb _ 1); [discriminate|].
    intros [= <-] u. reflexivity.
  - intros T Marshal spec f. unfold JsonPatchSpec.
    destruct (Marshal spec) as [marshaled [e|]]; [discriminate|].
    intros [= <-] u. reflexivity.
Qed.

Lemma X11_witness :
  func_of (JsonPatchMap echo_clt blank_obj "/l" None sanitized_labels a_then_c)
  = Some (apply_patch echo_clt blank_obj
            (strings.Join
               [render (OpAdd "/l" (object1 "a/b" "1"));
                render (OpAdd "/l/c~1d" (quoted "2"))] ","))
  ∧ apply_patch echo_clt blank_obj
      (strings.Join
         [render (OpAdd "/l" (object1 "a/b" "1"));
          render (OpAdd "/l/c~1d" (quoted "2"))] ",") ()
    = Some (ErrOther
              ("[" ++ render (OpAdd "/l" (object1 "a/b" "1")) ++ ","
                   ++ render (OpAdd "/l/c~1d" (quoted "2")) ++ "]")).
Proof.
  assert (Hf : func_of (JsonPatchMap echo_clt blank_obj "/l" None
                          sanitized_labels a_then_c)
               = Some (apply_patch echo_clt blank_obj
                         (strings.Join
                            [render (OpAdd "/l" (object1 "a/b" "1"));
                             render (OpAdd "/l/c~1d" (quoted "2"))] ",")))
    by reflexivity.
  split; [exact Hf|].
  rewrite (proj1 (proj2 (proj2 (X11_PatchFunc_sends_returned_patches
                                  echo_clt blank_obj)))
             "/l" None sanitized_labels a_then_c _ Hf ()).
  vm_compute. reflexivity.
Defined.

(** ** The map builder and the order of the [range] *)

Section MapOrder.

Variables (path : string) (origMap newMap : GoMap).

Lemma string_length_app (a b : string) :
  String.length (a ++ b) = (String.length a + String.length b)%nat.
Proof.
  induction a as [|x a IH]; [reflexivity|].
  rewrite string_app_cons. cbn [String.length]. by rewrite IH.
Qed.

Lemma key_path_not_container (k : string) : path ++ "/" ++ k ≠ path.
Proof.
  intros H. apply (f_equal String.length) in H.
  rewrite string_length_app, string_app_cons in H. cbn in H. lia.
Qed.

Lemma entry_ops_length (l : list (string * string)) :
  length (flat_map (entry_ops path origMap) l)
  = length (filter (entry_differs origMap) l).
Proof.
  induction l as [|[k v] l IH]; [reflexivity|].
  cbn [flat_map]. rewrite length_app, IH.
  unfold entry_ops at 1. cbn [fst snd].
  destruct (map_index origMap k) as [value|] eqn:Hk; [case_decide as Hv|].
  - subst value. rewrite filter_cons_False; [reflexivity|].
    unfold entry_differs. cbn [fst snd]. by intros [].
  - rewrite filter_cons_True; [reflexivity|].
    unfold entry_differs. cbn [fst snd]. congruence.
  - rewrite filter_cons_True; [reflexivity|].
    unfold entry_differs. cbn [fst snd]. congruence.
Qed.

Lemma differing_entries_length (rng : Range newMap) :
  length (filter (entry_differs origMap) (order rng))
  = size (filter (entry_differs origMap) (map_entries newMap)).
Proof.
  rewrite <- length_map_to_list, map_filter_alt.
  rewrite map_to_list_to_map.
  - apply Permutation_length, filter_Permutation, order_perm.
  - eapply sublist_NoDup;
      [apply (NoDup_fst_map_to_list (map_entries newMap))|].
    apply fmap_sublist, sublist_filter.
Qed.

Lemma map_patches_length (rng : Range newMap) :
  length (map_patches path origMap (order rng))
  = if decide (map_len origMap = 0) then map_len newMap
    else size (filter (entry_differs origMap) (map_entries newMap)).
Proof.
  case_decide as Hz.
  - rewrite <- (range_length rng).
    destruct (order rng) as [|kv rest]; [by unfold map_patches; rewrite Hz|].
    rewrite map_patches_empty by done. cbn. by rewrite !length_map.
  - rewrite map_patches_nonempty by done.
    by rewrite length_map, entry_ops_length, differing_entries_length.
Qed.

Lemma JsonPatchMap_err (clt : Client) (obj : Object) (rng : Range newMap) :
  err_of (JsonPatchMap clt obj path origMap newMap rng)
  = if decide (map_entries newMap ⊆ map_entries origMap)
    then Some (ErrNoPatchRequired (mkNoPatchRequired "nothing to patch in map"))
    else None.
Proof.
  case_decide as Hsub; rewrite <- (map_patches_nil_iff path _ _ rng) in Hsub.
  - by rewrite (JsonPatchMap_nothing clt obj path _ _ _ Hsub).
  - by apply JsonPatchMap_err_of.
Qed.

End MapOrder.

(** X12. Two runs of [JsonPatchMap] on the same maps, whatever the orders in
    which their [range] goes through the desired map, return the same error
    and as many patches; when the original map has members, they return the
    same patches up to their order. *)
Theorem X12_JsonPatchMap_range_order
    (clt : Client) (obj : Object) (path : string)
    (origMap newMap : GoMap) (rng1 rng2 : Range newMap) :
  err_of (JsonPatchMap clt obj path origMap newMap rng1)
  = err_of (JsonPatchMap clt obj path origMap newMap rng2)
  ∧ length (patch_of (JsonPatchMap clt obj path origMap newMap rng1))
    = length (patch_of (JsonPatchMap clt obj path origMap newMap rng2))
  ∧ (map_len origMap ≠ 0 →
     patch_of (JsonPatchMap clt obj path origMap newMap rng1)
     ≡ₚ patch_of (JsonPatchMap clt obj path origMap newMap rng2)).
Proof.
  split; [by rewrite !JsonPatchMap_err|]. rewrite !JsonPatchMap_patch_of. split.
  - by rewrite !length_map, !map_patches_length.
  - intros Hlen. rewrite !map_patches_nonempty by done.
    do 2 apply Permutation_map. apply Permutation_flat_map.
    by rewrite (order_perm rng1), (order_perm rng2).
Qed.

Lemma X12_witness :
  map_len k1_k2 ≠ 0
  ∧ patch_of (JsonPatchMap test_clt blank_obj "/l" k1_k2 sanitized_labels a_then_c)
    ≡ₚ patch_of (JsonPatchMap test_clt blank_obj "/l" k1_k2 sanitized_labels
                   c_then_a).
Proof.
  assert (Hlen : map_len k1_k2 ≠ 0) by (vm_compute; lia).
  split; [exact Hlen|].
  apply (proj2 (proj2 (X12_JsonPatchMap_range_order test_clt blank_obj "/l"
                         k1_k2 sanitized_labels a_then_c c_then_a))).
  exact Hlen.
Defined.

(** X13. [JsonPatchMap] returns one patch for every entry of the desired map
    when the original map is nil or empty, and otherwise one patch for every
    entry of the desired map that the original map does not hold with the
    same value; never more patches than the desired map has entries. *)
Theorem X13_JsonPatchMap_patch_count
    (clt : Client) (obj : Object) (path : string)
    (origMap newMap : GoMap) (rng : Range newMap) :
  length (patch_of (JsonPatchMap clt obj path origMap newMap rng))
  = (if decide (map_len origMap = 0) then map_len newMap
     else size (filter (entry_differs origMap) (map_entries newMap)))
  ∧ (length (patch_of (JsonPatchMap clt obj path origMap newMap rng))
     ≤ map_len newMap)%nat.
Proof.
  rewrite JsonPatchMap_patch_of, length_map, map_patches_length.
  split; [reflexivity|]. case_decide; [done|]. apply map_size_filter.
Qed.

(** X14. Among the operations of [JsonPatchMap] none is a "remove", and only
    the first can be at [path] itself: it is, when the original map is nil or
    empty and the desired map is not; every other operation, and every
    operation when the original map has members, is at a path below
    [path]. *)
Theorem X14_JsonPatchMap_container_once
    (clt : Client) (obj : Object) (path : string)
    (origMap newMap : GoMap) (rng : Range newMap) :
  ∃ ops : list Op,
    patch_of (JsonPatchMap clt obj path origMap newMap rng)
    = map (λ o, mkJsonPatch (render o)) ops
    ∧ (∀ o, o ∈ ops → is_remove o = false)
    ∧ (∀ o, o ∈ tail ops → ∃ k, op_path o = path ++ "/" ++ k ∧ op_path o ≠ path)
    ∧ (map_len origMap ≠ 0 →
       ∀ o, o ∈ ops → ∃ k, op_path o = path ++ "/" ++ k ∧ op_path o ≠ path)
    ∧ (map_len origMap = 0 → map_len newMap ≠ 0 →
       op_path <$> head ops = Some path).
Proof.
  rewrite JsonPatchMap_patch_of.
  destruct (decide (map_len origMap = 0)) as [Hz|Hnz].
  - destruct (order rng) as [|kv rest] eqn:Hord.
    + exists []. unfold map_patches. rewrite Hz. cbn.
      repeat split; try (intros o Ho; by apply elem_of_nil in Ho); try done.
      intros _ Hnew. by rewrite <- (range_length rng), Hord in Hnew.
    + exists (create_op path kv :: map (add_op path) rest).
      rewrite map_patches_empty, map_map by done.
      split; [reflexivity|]. split; [|split; [|split; [done|done]]].
      * intros o [->|Ho]%elem_of_cons; [reflexivity|].
        apply list_elem_of_In, in_map_iff in Ho as (e & <- & _). reflexivity.
      * cbn [tail]. intros o Ho.
        apply list_elem_of_In, in_map_iff in Ho as (e & <- & _).
        exists e.1. split; [reflexivity|apply key_path_not_container].
  - exists (flat_map (entry_ops path origMap) (order rng)).
    rewrite map_patches_nonempty, map_map by done.
    assert (Hbelow : ∀ o, o ∈ flat_map (entry_ops path origMap) (order rng) →
                          ∃ k, op_path o = path ++ "/" ++ k ∧ op_path o ≠ path).
    { intros o Ho. apply list_elem_of_In, in_flat_map in Ho as (kv & _ & Ho).
      apply list_elem_of_In, entry_ops_at_key in Ho. exists kv.1.
      split; [exact Ho|]. rewrite Ho. apply key_path_not_container. }
    split; [reflexivity|]. split; [|split; [|split; [done|done]]].
    + intros o Ho. apply list_elem_of_In, in_flat_map in Ho as (kv & _ & Ho).
      by apply list_elem_of_In, entry_ops_not_remove in Ho.
    + intros o Ho. apply Hbelow.
      destruct (flat_map _ _) as [|o' ops]; [done|]. by right.
Qed.

Lemma X14_witness :
  map_len labels_orig ≠ 0
  ∧ ∃ ops : list Op,
      patch_of (JsonPatchMap test_clt blank_obj "/metadata/labels"
                  labels_orig labels_new (listed labels_new))
      = map (λ o, mkJsonPatch (render o)) ops
      ∧ ∀ o, o ∈ ops →
             ∃ k, op_path o = "/metadata/labels" ++ "/" ++ k
                  ∧ op_path o ≠ "/metadata/labels".
Proof.
  assert (Hlen : map_len labels_orig ≠ 0) by (vm_compute; lia).
  split; [exact Hlen|].
  destruct (X14_JsonPatchMap_container_once test_clt blank_obj "/metadata/labels"
              labels_orig labels_new (listed labels_new))
    as (ops & Hops & _ & _ & Hbelow & _).
  exists ops. split; [exact Hops|]. exact (Hbelow Hlen).
Defined.

(** X15. When the original map is nil or empty and the entry the [range]
    yields first has a key the caller has sanitized, the first patch of
    [JsonPatchMap] creates the map with the key as it was before it was
    sanitized. *)
Theorem X15_JsonPatchMap_creates_with_original_key
    (clt : Client) (obj : Object) (path : string)
    (origMap newMap : GoMap) (rng : Range newMap)
    (key v : string) (rest : list (string * string)) :
  map_len origMap = 0 →
  order rng = (SanitizeKeyForJsonPatch key, v) :: rest →
  head (patch_of (JsonPatchMap clt obj path origMap newMap rng))
  = Some (mkJsonPatch (render (OpAdd path (object1 key v)))).
Proof.
  intros Hz Hord.
  rewrite JsonPatchMap_patch_of, Hord, map_patches_empty by done.
  unfold create_op. cbn [fst snd map head].
  by rewrite UnSanitize_Sanitize.
Qed.

Lemma X15_witness :
  map_len None = 0
  ∧ order (listed readme_labels)
    = [(SanitizeKeyForJsonPatch "your.label/first.key", "label-value")]
  ∧ head (patch_of (JsonPatchMap test_clt blank_obj "/metadata/labels"
                      None readme_labels (listed readme_labels)))
    = Some (mkJsonPatch
              (render (OpAdd "/metadata/labels"
                         (object1 "your.label/first.key" "label-value")))).
Proof.
  assert (Hord : order (listed readme_labels)
                 = [(SanitizeKeyForJsonPatch "your.label/first.key",
                     "label-value")])
    by (vm_compute; reflexivity).
  split; [reflexivity|]. split; [exact Hord|].
  apply (X15_JsonPatchMap_creates_with_original_key test_clt blank_obj
           "/metadata/labels" None readme_labels (listed readme_labels)
           "your.label/first.key" "label-value" []);
    [reflexivity|exact Hord].
Defined.
